(** * git-arr: the browser-side helpers of [static/git-arr.js]

    A shallow embedding of the four helpers of the page script
    ([how_long_ago], [replace_timestamps], [toggle], [sortTable] with
    [updateSortIndicators]) together with the fragment of the host language
    they rely on, and the properties stated about them.

    Conventions of the embedding.
    - A JavaScript number is an exact rational, an infinity or NaN; the
      rounding of IEEE doubles is not modelled.  What is stated of an age
      is stated of the number that the script's own subtraction yields.
    - A JavaScript string is a [string] of 8-bit code units; case mapping
      and white space are those of ASCII.
    - [Date.getTime] is an oracle [getTime : nat -> Z]: its [n]-th call
      returns [getTime n] milliseconds, and every function that reads the
      clock threads the number of calls made so far.
    - A failed dereference of [null] or [undefined] is the outcome
      [TypeError]. *)

From Stdlib Require Import ZArith QArith Qround Lia List Sorting.Sorted.
From Stdlib Require Import Strings.String Strings.Ascii DecimalString DecimalPos.
From stdpp Require Import base option list sorting gmap strings.

Local Open Scope Z_scope.

(** ** The host language *)

Module JS.

(** *** Numbers *)

Inductive number : Type :=
  | NaN
  | Inf (negative : bool)
  | Fin (q : Q).

Definition of_Z (z : Z) : number := Fin (inject_Z z).

Definition Qlt_bool (x y : Q) : bool := negb (Qle_bool y x).

(** IEEE [<]: false as soon as an operand is NaN. *)
Definition num_lt (x y : number) : bool :=
  match x, y with
  | NaN, _ | _, NaN => false
  | Fin a, Fin b => Qlt_bool a b
  | Inf true, Inf true => false
  | Inf true, _ => true
  | Inf false, _ => false
  | Fin _, Inf neg => negb neg
  end.

Definition num_sub (x y : number) : number :=
  match x, y with
  | NaN, _ | _, NaN => NaN
  | Fin a, Fin b => Fin (a - b)
  | Inf s, Fin _ => Inf s
  | Fin _, Inf s => Inf (negb s)
  | Inf s, Inf s' => if Bool.eqb s s' then NaN else Inf s
  end.

(** [x / c] for a positive literal [c], the only divisions of the script. *)
Definition num_div (x : number) (c : positive) : number :=
  match x with
  | Fin a => Fin (a / inject_Z (Z.pos c))
  | _ => x
  end.

Definition Math_floor (x : number) : number :=
  match x with
  | Fin a => of_Z (Qfloor a)
  | _ => x
  end.

Definition Z_to_string (z : Z) : string := NilZero.string_of_int (Z.to_int z).

(** [Number::toString] on the values the script converts, which are all
    results of [Math.floor]: an integral value prints as its decimal numeral
    (lemma [Math_floor_integral] below says that the [Qfloor] here is the
    identity at every call site).  JavaScript switches to exponent notation
    from 10^21 on, which no age computed from a valid Date reaches (lemma
    [seconds_below_exponent_notation]). *)
Definition Number_toString (x : number) : string :=
  match x with
  | NaN => "NaN"
  | Inf false => "Infinity"
  | Inf true => "-Infinity"
  | Fin a => Z_to_string (Qfloor a)
  end.

(** *** Strings *)

(** The ASCII members of WhiteSpace and LineTerminator: TAB, LF, VT, FF, CR
    and SP. *)
Definition is_whitespace (c : ascii) : bool :=
  let n := N_of_ascii c in ((9 <=? n) && (n <=? 13) || (n =? 32))%N.

Fixpoint trim_start (s : string) : string :=
  match s with
  | String c s' => if is_whitespace c then trim_start s' else s
  | EmptyString => EmptyString
  end.

Fixpoint trim_end (s : string) : string :=
  match s with
  | String c s' =>
      match trim_end s' with
      | EmptyString => if is_whitespace c then EmptyString
                       else String c EmptyString
      | t => String c t
      end
  | EmptyString => EmptyString
  end.

(** [String.prototype.trim] *)
Definition trim (s : string) : string := trim_end (trim_start s).

Definition lower_char (c : ascii) : ascii :=
  let n := N_of_ascii c in
  if ((65 <=? n) && (n <=? 90))%N then ascii_of_N (n + 32) else c.

(** [String.prototype.toLowerCase] *)
Fixpoint toLowerCase (s : string) : string :=
  match s with
  | String c s' => String (lower_char c) (toLowerCase s')
  | EmptyString => EmptyString
  end.

(** *** Numeric literals in strings *)

Definition digit_of (base : N) (c : ascii) : option N :=
  let n := N_of_ascii c in
  let d := if ((48 <=? n) && (n <=? 57))%N then Some (n - 48)%N
           else if ((97 <=? n) && (n <=? 102))%N then Some (n - 87)%N
           else if ((65 <=? n) && (n <=? 70))%N then Some (n - 55)%N
           else None in
  match d with
  | Some k => if (k <? base)%N then Some k else None
  | None => None
  end.

(** The longest prefix of digits in [base], most significant first, and
    what follows it. *)
Fixpoint span_digits (base : N) (s : string) : list N * string :=
  match s with
  | String c s' =>
      match digit_of base c with
      | Some d => let (ds, rest) := span_digits base s' in (d :: ds, rest)
      | None => (nil, s)
      end
  | EmptyString => (nil, s)
  end.

Definition digits_value (base : N) (ds : list N) : Z :=
  fold_left (fun acc d => acc * Z.of_N base + Z.of_N d) ds 0.

Definition pow10 (e : Z) : Q :=
  if 0 <=? e then inject_Z (10 ^ e) else / inject_Z (10 ^ (- e)).

Definition strip_prefix (p s : string) : option string :=
  if String.prefix p s
  then Some (substring (String.length p) (String.length s - String.length p) s)
  else None.

(** ExponentPart, when a well-formed one starts here. *)
Definition parse_exponent (s : string) : Z * string :=
  match s with
  | String c s1 =>
      if (Ascii.eqb c "e" || Ascii.eqb c "E")%bool then
        let '(neg, s2) :=
          match s1 with
          | String "+" r => (false, r)
          | String "-" r => (true, r)
          | _ => (false, s1)
          end in
        match span_digits 10 s2 with
        | (nil, _) => (0, s)
        | (ds, rest) =>
            ((if neg then - digits_value 10 ds else digits_value 10 ds), rest)
        end
      else (0, s)
  | EmptyString => (0, s)
  end.

(** StrUnsignedDecimalLiteral as a prefix of [s]. *)
Definition parse_unsigned_decimal (s : string) : option (number * string) :=
  match strip_prefix "Infinity" s with
  | Some rest => Some (Inf false, rest)
  | None =>
      let (ip, r1) := span_digits 10 s in
      let mantissa : option (Q * string) :=
        match r1 with
        | String "." r2 =>
            let (fp, r3) := span_digits 10 r2 in
            match ip, fp with
            | nil, nil => None
            | _, _ =>
                Some ((inject_Z (digits_value 10 (ip ++ fp))
                       * pow10 (- Z.of_nat (List.length fp)))%Q, r3)
            end
        | _ =>
            match ip with
            | nil => None
            | _ => Some (inject_Z (digits_value 10 ip), r1)
            end
        end in
      match mantissa with
      | Some (m, r) =>
          let (e, rest) := parse_exponent r in Some (Fin (m * pow10 e), rest)
      | None => None
      end
  end.

Definition num_neg (x : number) : number :=
  match x with
  | NaN => NaN
  | Inf s => Inf (negb s)
  | Fin a => Fin (- a)
  end.

(** StrDecimalLiteral as a prefix of [s]. *)
Definition parse_decimal (s : string) : option (number * string) :=
  match s with
  | String "+" r => parse_unsigned_decimal r
  | String "-" r =>
      match parse_unsigned_decimal r with
      | Some (x, rest) => Some (num_neg x, rest)
      | None => None
      end
  | _ => parse_unsigned_decimal s
  end.

(** NonDecimalIntegerLiteral: [0x], [0o] and [0b] numerals, unsigned. *)
Definition parse_non_decimal (s : string) : option number :=
  match s with
  | String "0" (String c r) =>
      let base : option N :=
        if (Ascii.eqb c "x" || Ascii.eqb c "X")%bool then Some 16%N
        else if (Ascii.eqb c "o" || Ascii.eqb c "O")%bool then Some 8%N
        else if (Ascii.eqb c "b" || Ascii.eqb c "B")%bool then Some 2%N
        else None in
      match base with
      | Some b =>
          match span_digits b r with
          | (d :: ds, EmptyString) => Some (of_Z (digits_value b (d :: ds)))
          | _ => Some NaN
          end
      | None => None
      end
  | _ => None
  end.

(** StringToNumber *)
Definition StringToNumber (s : string) : number :=
  match trim s with
  | EmptyString => of_Z 0
  | t =>
      match parse_non_decimal t with
      | Some x => x
      | None =>
          match parse_decimal t with
          | Some (x, EmptyString) => x
          | _ => NaN
          end
      end
  end.

(** *** Values *)

Inductive value : Type :=
  | VUndefined
  | VNull
  | VNum (n : number)
  | VStr (s : string).

Definition ToNumber (v : value) : number :=
  match v with
  | VUndefined => NaN
  | VNull => of_Z 0
  | VNum n => n
  | VStr s => StringToNumber s
  end.

Definition ToString (v : value) : string :=
  match v with
  | VUndefined => "undefined"
  | VNull => "null"
  | VNum n => Number_toString n
  | VStr s => s
  end.

(** The global [parseFloat]: the longest StrDecimalLiteral prefix of the
    argument's string, leading white space skipped. *)
Definition parseFloat (v : value) : number :=
  match parse_decimal (trim_start (ToString v)) with
  | Some (x, _) => x
  | None => NaN
  end.

(** [a < b]: two strings compare by code units, anything else as numbers. *)
Definition lt (a b : value) : bool :=
  match a, b with
  | VStr s, VStr t => String.ltb s t
  | _, _ => num_lt (ToNumber a) (ToNumber b)
  end.

(** [a > b] *)
Definition gt (a b : value) : bool := lt b a.

(** [n + s] for a number [n] and a string [s]. *)
Definition add_str (n : number) (s : string) : string :=
  (Number_toString n ++ s)%string.

(** *** Outcomes *)

Inductive outcome (A : Type) : Type :=
  | Ok (a : A)
  | TypeError.
Arguments Ok {A} a.
Arguments TypeError {A}.

Global Instance outcome_ret : MRet outcome := @Ok.
Global Instance outcome_bind : MBind outcome := fun A B k m =>
  match m with
  | Ok a => k a
  | TypeError => TypeError
  end.

End JS.

Import JS.

(** ** The script *)

(** An element of the page, as far as the script looks at it. *)
Record element : Type := Element {
  className : string;
  innerHTML : string;
  style_display : string
}.

Definition set_className (e : element) (c : string) : element :=
  {| className := c; innerHTML := innerHTML e;
     style_display := style_display e |}.

Definition set_innerHTML (e : element) (h : string) : element :=
  {| className := className e; innerHTML := h;
     style_display := style_display e |}.

Definition set_style_display (e : element) (d : string) : element :=
  {| className := className e; innerHTML := innerHTML e;
     style_display := d |}.

Section Clock.

(** [getTime n]: what the [n]-th call of [new Date().getTime()] returns. *)
Variable getTime : nat -> Z.

(** [now()], given the number of clock reads made before it. *)
Definition now (tick : nat) : number * nat :=
  (num_div (of_Z (getTime tick)) 1000, S tick).

Definition how_long_ago (timestamp : value) (tick : nat) : string * nat :=
  if lt timestamp (VNum (of_Z 0)) then ("never"%string, tick) else
  let (t, tick) := now tick in
  let seconds := Math_floor (num_sub t (ToNumber timestamp)) in
  let interval := Math_floor (num_div seconds (365 * 24 * 60 * 60)) in
  if num_lt (of_Z 1) interval then (add_str interval " years ago", tick) else
  let interval := Math_floor (num_div seconds (30 * 24 * 60 * 60)) in
  if num_lt (of_Z 1) interval then (add_str interval " months ago", tick) else
  let interval := Math_floor (num_div seconds (24 * 60 * 60)) in
  if num_lt (of_Z 1) interval then (add_str interval " days ago", tick) else
  let interval := Math_floor (num_div seconds (60 * 60)) in
  if num_lt (of_Z 1) interval then (add_str interval " hours ago", tick) else
  let interval := Math_floor (num_div seconds 60) in
  if num_lt (of_Z 1) interval then (add_str interval " minutes ago", tick) else
  if num_lt (of_Z 1) seconds
  then (add_str (Math_floor seconds) " seconds ago", tick)
  else ("about now"%string, tick).

(** The body of the loop of [replace_timestamps], on the element [e]. *)
Definition replace_timestamp (e : element) (tick : nat) : element * nat :=
  let timestamp := VStr (innerHTML e) in
  let (text, tick) := how_long_ago timestamp tick in
  let e := set_innerHTML e text in
  let e := set_style_display e "inline" in
  if gt timestamp (VNum (of_Z 0)) then
    let (t, tick) := now tick in
    let age := num_sub t (ToNumber timestamp) in
    if num_lt age (of_Z (2 * 60 * 60)) then
      (set_className e (className e ++ " age-band0")%string, tick)
    else if num_lt age (of_Z (3 * 24 * 60 * 60)) then
      (set_className e (className e ++ " age-band1")%string, tick)
    else if num_lt age (of_Z (30 * 24 * 60 * 60)) then
      (set_className e (className e ++ " age-band2")%string, tick)
    else (e, tick)
  else (e, tick).

(** [replace_timestamps], on the elements of class [age] in document
    order.  The collection is live, but the loop only ever extends the
    class of a member, so its members and their order are fixed. *)
Fixpoint replace_timestamps (elements : list element) (tick : nat)
  : list element * nat :=
  match elements with
  | [] => ([], tick)
  | e :: elements =>
      let (e', tick) := replace_timestamp e tick in
      let (elements', tick) := replace_timestamps elements tick in
      (e' :: elements', tick)
  end.

End Clock.

(** [toggle(id)] on the elements of the document that carry an id. *)
Definition toggle (id : string) (document : gmap string element)
  : outcome (gmap string element) :=
  match document !! id with
  | None => TypeError
  | Some e =>
      if String.eqb (style_display e) "" then
        Ok (<[id := set_style_display e "none"]> document)
      else if String.eqb (style_display e) "none" then
        Ok (<[id := set_style_display e ""]> document)
      else Ok document
  end.

(** *** Table sorting *)

Inductive direction : Type := asc | desc.

(** A cell: its text, and what [querySelector('.age')] finds in it, [None]
    for no such descendant, otherwise the [data-timestamp] attribute of the
    first one ([None] when the attribute is absent). *)
Record cell : Type := Cell {
  textContent : string;
  age_span : option (option string)
}.

(** A row; [node] is the identity of the [tr] element. *)
Record row : Type := Row {
  node : nat;
  cells : list cell
}.

(** What [sortTable] reads and writes: the [tr]s of the [tbody] of the
    element with id [repos-table] (the outer [None]: no such element, the
    inner one: no [tbody] in it), the texts of the elements of class
    [sort-indicator] in document order, and the two globals.  The rows are
    the children of the body: a table nested in a cell, whose rows
    [querySelectorAll('tr')] would find as well, is not modelled. *)
Record page : Type := Page {
  repos_table : option (option (list row));
  sort_indicators : list string;
  currentSortColumn : Z;
  currentSortDirection : direction
}.

(** The state of a freshly loaded page. *)
Definition initial_page (t : option (option (list row))) (ind : list string)
  : page :=
  {| repos_table := t; sort_indicators := ind;
     currentSortColumn := -1; currentSortDirection := asc |}.

(** [r.cells[i]], [None] for [undefined]. *)
Definition cells_at (r : row) (i : Z) : option cell :=
  if i <? 0 then None else cells r !! Z.to_nat i.

(** [Array.prototype.sort] with a comparator that may throw.  The sort is
    stable (ECMAScript 2019); it is done by insertion here, and with a
    consistent comparator every stable sort gives the same array. *)
Fixpoint sort_insert {A} (cmp : A -> A -> outcome Z) (x : A) (l : list A)
  : outcome (list A) :=
  match l with
  | [] => Ok [x]
  | y :: l' =>
      c ← cmp x y;
      if c <=? 0 then Ok (x :: l)
      else l'' ← sort_insert cmp x l'; Ok (y :: l'')
  end.

Fixpoint Array_sort {A} (cmp : A -> A -> outcome Z) (l : list A)
  : outcome (list A) :=
  match l with
  | [] => Ok []
  | x :: l' => s ← Array_sort cmp l'; sort_insert cmp x s
  end.

(** [c.querySelector('.age')] on what [cells[i]] gave. *)
Definition querySelector_age (c : option cell)
  : outcome (option (option string)) :=
  match c with
  | Some c => Ok (age_span c)
  | None => TypeError
  end.

(** [span.getAttribute('data-timestamp')] on what [querySelector] gave. *)
Definition getAttribute_timestamp (span : option (option string))
  : outcome value :=
  match span with
  | Some attr => Ok (from_option VStr VNull attr)
  | None => TypeError
  end.

(** [c.textContent] on what [cells[i]] gave. *)
Definition get_textContent (c : option cell) : outcome string :=
  match c with
  | Some c => Ok (textContent c)
  | None => TypeError
  end.

(** The comparator that [sortTable] hands to [sort]. *)
Definition compare_rows (columnIndex : Z) (dataType : string)
    (dir : direction) (a b : row) : outcome Z :=
  let cellA := cells_at a columnIndex in
  let cellB := cells_at b columnIndex in
  '(valueA, valueB) ←
    (if String.eqb dataType "number" then
       spanA ← querySelector_age cellA;
       spanB ← querySelector_age cellB;
       attrA ← getAttribute_timestamp spanA;
       attrB ← getAttribute_timestamp spanB;
       Ok (VNum (parseFloat attrA), VNum (parseFloat attrB))
     else
       textA ← get_textContent cellA;
       textB ← get_textContent cellB;
       Ok (VStr (toLowerCase (trim textA)), VStr (toLowerCase (trim textB))));
  let comparison :=
    if gt valueA valueB then 1
    else if lt valueA valueB then -1
    else 0 in
  Ok (match dir with asc => comparison | desc => - comparison end).

(** [tbody.appendChild(r)]: the node moves to the end of the children. *)
Definition appendChild (children : list row) (r : row) : list row :=
  filter (fun x => node x ≠ node r) children ++ [r].

Definition updateSortIndicators (activeColumn : Z) (dir : direction)
    (indicators : list string) : list string :=
  imap (fun index _ =>
          if Z.of_nat index =? activeColumn
          then match dir with asc => " ▲" | desc => " ▼" end
          else "") indicators.

Definition set_sort_state (pg : page) (c : Z) (d : direction) : page :=
  {| repos_table := repos_table pg; sort_indicators := sort_indicators pg;
     currentSortColumn := c; currentSortDirection := d |}.

(** [sortTable(columnIndex, dataType)]: the page it leaves and how it
    ends. *)
Definition sortTable (columnIndex : Z) (dataType : string) (pg : page)
  : page * outcome unit :=
  match repos_table pg with
  | None | Some None => (pg, TypeError)
  | Some (Some children) =>
      let rows := children in
      let pg :=
        if currentSortColumn pg =? columnIndex then
          set_sort_state pg (currentSortColumn pg)
            (match currentSortDirection pg with asc => desc | desc => asc end)
        else set_sort_state pg columnIndex asc in
      match Array_sort
              (compare_rows columnIndex dataType (currentSortDirection pg))
              rows with
      | TypeError => (pg, TypeError)
      | Ok rows =>
          let children := fold_left appendChild rows children in
          ({| repos_table := Some (Some children);
              sort_indicators :=
                updateSortIndicators columnIndex (currentSortDirection pg)
                  (sort_indicators pg);
              currentSortColumn := currentSortColumn pg;
              currentSortDirection := currentSortDirection pg |}, Ok ())
      end
  end.

(** ** The stated behaviour, in the words of the specification *)

(** The age formatter as a first-match table over whole [seconds]. *)
Definition age_text (seconds : Z) : string :=
  if 1 <? seconds / 31536000
  then (Z_to_string (seconds / 31536000) ++ " years ago")%string
  else if 1 <? seconds / 2592000
  then (Z_to_string (seconds / 2592000) ++ " months ago")%string
  else if 1 <? seconds / 86400
  then (Z_to_string (seconds / 86400) ++ " days ago")%string
  else if 1 <? seconds / 3600
  then (Z_to_string (seconds / 3600) ++ " hours ago")%string
  else if 1 <? seconds / 60
  then (Z_to_string (seconds / 60) ++ " minutes ago")%string
  else if 1 <? seconds
  then (Z_to_string seconds ++ " seconds ago")%string
  else "about now"%string.

(** The reading of the clock, in seconds, at its [tick]-th call. *)
Definition clock_seconds (getTime : nat -> Z) (tick : nat) : Q :=
  inject_Z (getTime tick) / inject_Z 1000.

(** The class suffix for an age in seconds: band 0 below two hours, band
    1 below three days, band 2 below thirty days, nothing from there on. *)
Definition age_band (age : Q) : string :=
  if Qlt_le_dec age (inject_Z 7200) then " age-band0"
  else if Qlt_le_dec age (inject_Z 259200) then " age-band1"
  else if Qlt_le_dec age (inject_Z 2592000) then " age-band2"
  else "".

(** The other direction. *)
Definition opposite (d : direction) : direction :=
  match d with asc => desc | desc => asc end.

(** The rows under the table body, none when the table or its body is
    missing. *)
Definition table_rows (pg : page) : list row :=
  match repos_table pg with
  | Some (Some rows) => rows
  | _ => []
  end.

(** Two characters that are equal or the two cases of one letter. *)
Definition case_variant (c d : ascii) : Prop :=
  let m := N_of_ascii c in
  let n := N_of_ascii d in
  (m = n \/ (65 <= m <= 90 /\ n = m + 32) \/ (65 <= n <= 90 /\ m = n + 32))%N.

(** Two texts that differ at most in the case of their letters. *)
Inductive differ_in_case : string -> string -> Prop :=
  | differ_in_case_empty : differ_in_case "" ""
  | differ_in_case_char c d s t :
      case_variant c d -> differ_in_case s t ->
      differ_in_case (String c s) (String d t).

(** A text of white space only. *)
Fixpoint blank (s : string) : Prop :=
  match s with
  | String c s' =>
      c ∈ ["009"; "010"; "011"; "012"; "013"; " "]%char /\ blank s'
  | EmptyString => True
  end.

(** Two texts that differ at most in letter case and in the white space
    around them. *)
Definition differ_in_case_and_margin (a b : string) : Prop :=
  exists l1 m1 r1 l2 m2 r2 : string,
    a = (l1 ++ m1 ++ r1)%string /\ b = (l2 ++ m2 ++ r2)%string
    /\ blank l1 /\ blank r1 /\ blank l2 /\ blank r2
    /\ differ_in_case m1 m2.

(** Two texts between which the host's [toLowerCase] and [trim] see no
    difference: they have the same lower-case form (they differ in letter
    case only), or the same trimmed form (they differ in leading or
    trailing white space only), or a chain of such steps links them.  The
    texts are arbitrary; what counts as a letter and as white space is
    what the two host functions take for it. *)
Inductive same_but_case_and_margin : string -> string -> Prop :=
  | same_text s : same_but_case_and_margin s s
  | same_but_case s t :
      toLowerCase s = toLowerCase t -> same_but_case_and_margin s t
  | same_but_margin s t :
      trim s = trim t -> same_but_case_and_margin s t
  | same_by_steps s t u :
      same_but_case_and_margin s t -> same_but_case_and_margin t u ->
      same_but_case_and_margin s u.

(** *** Sorting with a comparator that does not throw *)

(** [sort_insert] and [Array_sort] for a comparator that returns for every
    pair; lemma [Array_sort_stable_sort] relates the two. *)
Fixpoint insert_by {A} (cmp : A -> A -> Z) (x : A) (l : list A) : list A :=
  match l with
  | [] => [x]
  | y :: l' => if cmp x y <=? 0 then x :: l else y :: insert_by cmp x l'
  end.

Fixpoint stable_sort {A} (cmp : A -> A -> Z) (l : list A) : list A :=
  match l with
  | [] => []
  | x :: l' => insert_by cmp x (stable_sort cmp l')
  end.

(** Two elements that the comparator does not tell apart. *)
Definition tie {A} (cmp : A -> A -> Z) (x y : A) : Prop :=
  cmp x y <= 0 /\ cmp y x <= 0.

Global Instance tie_dec {A} (cmp : A -> A -> Z) (x y : A) :
  Decision (tie cmp x y).
Proof. unfold tie. apply _. Defined.

(** The value that the comparator of [sortTable] extracts from a row. *)
Definition sort_value (columnIndex : Z) (dataType : string) (r : row)
  : outcome value :=
  match cells_at r columnIndex with
  | None => TypeError
  | Some c =>
      if String.eqb dataType "number" then
        match age_span c with
        | None => TypeError
        | Some attr => Ok (VNum (parseFloat (from_option VStr VNull attr)))
        end
      else Ok (VStr (toLowerCase (trim (textContent c))))
  end.

(** The three-way comparison of two extracted values. *)
Definition three_way (a b : value) : Z :=
  if gt a b then 1 else if lt a b then -1 else 0.

(** A row that [sortTable] can order in the given column and mode: it has
    the cell that the mode reads, and in number mode the attribute of its
    age element parses to a number. *)
Definition sortable (columnIndex : Z) (dataType : string) (r : row) : Prop :=
  match sort_value columnIndex dataType r with
  | Ok (VNum NaN) | TypeError => False
  | Ok _ => True
  end.

(** The comparator of [sortTable] on sortable rows, as a total function. *)
Definition row_order (columnIndex : Z) (dataType : string) (dir : direction)
    (a b : row) : Z :=
  match compare_rows columnIndex dataType dir a b with
  | Ok z => z
  | TypeError => 0
  end.

(** Two extracted values of one mode that [<] orders: two strings, or two
    numbers other than NaN. *)
Definition comparable (a b : value) : Prop :=
  match a, b with
  | VStr _, VStr _ => True
  | VNum x, VNum y => x <> NaN /\ y <> NaN
  | _, _ => False
  end.

Global Instance cell_eq_dec : EqDecision cell.
Proof. solve_decision. Defined.

Global Instance row_eq_dec : EqDecision row.
Proof. solve_decision. Defined.

(** Two rows with equal values in the column: neither value is less than
    the other. *)
Definition same_sort_value (columnIndex : Z) (dataType : string)
    (a b : row) : Prop :=
  match sort_value columnIndex dataType a,
        sort_value columnIndex dataType b with
  | Ok va, Ok vb => lt va vb = false /\ lt vb va = false
  | _, _ => False
  end.

Global Instance same_sort_value_dec (columnIndex : Z) (dataType : string)
    (a b : row) : Decision (same_sort_value columnIndex dataType a b).
Proof.
  unfold same_sort_value.
  destruct (sort_value columnIndex dataType a),
           (sort_value columnIndex dataType b); apply _.
Defined.

(** [n] calls of [sortTable(columnIndex, dataType)] in a row. *)
Fixpoint sortTable_times (n : nat) (columnIndex : Z) (dataType : string)
    (pg : page) : page :=
  match n with
  | O => pg
  | S n =>
      fst (sortTable columnIndex dataType
             (sortTable_times n columnIndex dataType pg))
  end.

(** The text of a sort indicator for a direction. *)
Definition arrow (d : direction) : string :=
  match d with asc => " ▲" | desc => " ▼" end.

(** The units in which [how_long_ago] tells an age. *)
Definition age_units : list string :=
  [" years ago"; " months ago"; " days ago"; " hours ago"; " minutes ago";
   " seconds ago"]%string.

(** ** Properties *)

(** *** Arithmetic of the number model *)

Lemma Qlt_bool_iff (x y : Q) : Qlt_bool x y = true <-> (x < y)%Q.
Proof.
  unfold Qlt_bool. rewrite Bool.negb_true_iff.
  split; intros H.
  - apply Qnot_le_lt. intros Hle.
    apply Qle_bool_iff in Hle. congruence.
  - destruct (Qle_bool y x) eqn:E; [|reflexivity].
    apply Qle_bool_iff in E. exfalso. exact (Qlt_not_le _ _ H E).
Qed.

Lemma Qlt_bool_false_iff (x y : Q) : Qlt_bool x y = false <-> (y <= x)%Q.
Proof.
  unfold Qlt_bool. rewrite Bool.negb_false_iff. apply Qle_bool_iff.
Qed.

Lemma Qlt_bool_inject_Z (a b : Z) :
  Qlt_bool (inject_Z a) (inject_Z b) = (a <? b).
Proof.
  destruct (a <? b) eqn:E.
  - apply Qlt_bool_iff. rewrite <- Zlt_Qlt. lia.
  - apply Qlt_bool_false_iff. rewrite <- Zle_Qle. lia.
Qed.

Lemma num_lt_of_Z (a b : Z) : num_lt (of_Z a) (of_Z b) = (a <? b).
Proof. apply Qlt_bool_inject_Z. Qed.

(** [Math.floor] yields an integral value, which it leaves alone. *)
Lemma Math_floor_integral (z : Z) : Math_floor (of_Z z) = of_Z z.
Proof. unfold Math_floor, of_Z. by rewrite Qfloor_Z. Qed.

Lemma Math_floor_idempotent (x : number) :
  Math_floor (Math_floor x) = Math_floor x.
Proof. destruct x; try done. apply Math_floor_integral. Qed.

(** Flooring the quotient of a whole number by a positive literal is the
    division of [Z]. *)
Lemma Math_floor_div (z : Z) (c : positive) :
  Math_floor (num_div (of_Z z) c) = of_Z (z / Z.pos c).
Proof. unfold Math_floor, num_div, of_Z. by rewrite <- Zdiv_Qdiv. Qed.

Lemma add_str_of_Z (z : Z) (s : string) :
  add_str (of_Z z) s = (Z_to_string z ++ s)%string.
Proof. unfold add_str, Number_toString, of_Z. by rewrite Qfloor_Z. Qed.

(** A time value of a Date is at most 8.64e15 ms in magnitude, so the age
    of a non-negative timestamp stays far below 10^21, where the decimal
    numeral of [Number_toString] is what JavaScript prints. *)
Lemma seconds_below_exponent_notation (getTime : nat -> Z) (tick : nat) (t : Q) :
  getTime tick <= 8640000000000000 -> (0 <= t)%Q ->
  Qfloor (clock_seconds getTime tick - t) < 10 ^ 21.
Proof.
  intros Hc Ht.
  assert (Hle : (clock_seconds getTime tick - t <= inject_Z 8640000000000)%Q).
  { unfold clock_seconds.
    apply Qle_trans with (inject_Z (getTime tick) / inject_Z 1000)%Q.
    - rewrite <- (Qplus_0_r (inject_Z (getTime tick) / inject_Z 1000)) at 2.
      unfold Qminus. apply Qplus_le_r.
      apply (Qopp_le_compat 0 t) in Ht. exact Ht.
    - apply Qle_shift_div_r; [reflexivity|].
      rewrite <- inject_Z_mult, <- Zle_Qle. lia. }
  apply Qfloor_resp_le in Hle. rewrite Qfloor_Z in Hle. lia.
Qed.

(** *** The age formatter *)

Lemma lt_number_r (v : value) (n : number) :
  lt v (VNum n) = num_lt (ToNumber v) n.
Proof. by destruct v. Qed.

Lemma gt_number_r (v : value) (n : number) :
  gt v (VNum n) = num_lt n (ToNumber v).
Proof. unfold gt. by destruct v. Qed.

(** The seconds that [how_long_ago] derives for a finite timestamp. *)
Lemma how_long_ago_seconds (getTime : nat -> Z) (tick : nat) (t : Q) :
  Math_floor (num_sub (fst (now getTime tick)) (Fin t))
  = of_Z (Qfloor (clock_seconds getTime tick - t)).
Proof. reflexivity. Qed.

(** Past the sign test, the cascade of [how_long_ago] over whole seconds is
    the table [age_text]. *)
Lemma how_long_ago_cascade (getTime : nat -> Z) (timestamp : value)
    (tick : nat) (t : Q) :
  ToNumber timestamp = Fin t -> (0 <= t)%Q ->
  how_long_ago getTime timestamp tick
  = (age_text (Qfloor (clock_seconds getTime tick - t)), S tick).
Proof.
  intros Hn Ht. unfold how_long_ago.
  rewrite lt_number_r, Hn.
  replace (num_lt (Fin t) (of_Z 0)) with false
    by (symmetry; by apply Qlt_bool_false_iff).
  pose proof (how_long_ago_seconds getTime tick t) as Hs.
  unfold now in *. cbn [fst] in Hs. rewrite Hs.
  set (s := Qfloor _). clearbody s.
  rewrite !Math_floor_div, !Math_floor_integral, !num_lt_of_Z, !add_str_of_Z.
  unfold age_text.
  change (Z.pos (365 * 24 * 60 * 60)) with 31536000.
  change (Z.pos (30 * 24 * 60 * 60)) with 2592000.
  change (Z.pos (24 * 60 * 60)) with 86400.
  change (Z.pos (60 * 60)) with 3600.
  change (Z.pos 60) with 60.
  repeat (case_match; [reflexivity|]). reflexivity.
Qed.

Lemma of_Z_inj (a b : Z) : of_Z a = of_Z b -> a = b.
Proof. unfold of_Z, inject_Z. by intros [= ->]. Qed.

(** C1: for a non-negative timestamp [t], [how_long_ago] answers by the
    first-match cascade over [seconds], the whole number that
    [Math.floor(now() - timestamp)] yields: years, months, days, hours,
    minutes when the floored quotient exceeds 1, then "<seconds> seconds
    ago" when [seconds > 1], and "about now" otherwise.  An age of exactly
    86400 seconds is told in hours, not in days.  [seconds] is taken as the
    subtraction and the floor of the script give it, whatever the
    arithmetic of numbers; the clock is a time value of a Date, at most
    8.64e15 ms, so that [seconds] and its quotients are whole numbers that
    a double holds exactly and that print as decimal numerals. *)
Theorem how_long_ago_first_match (getTime : nat -> Z) (timestamp : value)
    (tick : nat) (t : Q) (seconds : Z) :
  ToNumber timestamp = Fin t -> (0 <= t)%Q ->
  getTime tick <= 8640000000000000 ->
  Math_floor (num_sub (fst (now getTime tick)) (ToNumber timestamp))
  = of_Z seconds ->
  let answer := fst (how_long_ago getTime timestamp tick) in
  answer = age_text seconds
  /\ (1 < seconds / 31536000 ->
      answer = (Z_to_string (seconds / 31536000) ++ " years ago")%string)
  /\ (seconds / 31536000 <= 1 -> 1 < seconds / 2592000 ->
      answer = (Z_to_string (seconds / 2592000) ++ " months ago")%string)
  /\ (seconds / 2592000 <= 1 -> 1 < seconds / 86400 ->
      answer = (Z_to_string (seconds / 86400) ++ " days ago")%string)
  /\ (seconds / 86400 <= 1 -> 1 < seconds / 3600 ->
      answer = (Z_to_string (seconds / 3600) ++ " hours ago")%string)
  /\ (seconds / 3600 <= 1 -> 1 < seconds / 60 ->
      answer = (Z_to_string (seconds / 60) ++ " minutes ago")%string)
  /\ (seconds / 60 <= 1 -> 1 < seconds ->
      answer = (Z_to_string seconds ++ " seconds ago")%string)
  /\ (seconds <= 1 -> answer = "about now"%string)
  /\ (seconds = 86400 -> answer = "24 hours ago"%string).
Proof.
  intros Hn Ht _ Hs answer.
  assert (Ha : answer = age_text seconds).
  { unfold answer. rewrite (how_long_ago_cascade _ _ _ t Hn Ht). cbn [fst].
    rewrite Hn, how_long_ago_seconds in Hs.
    by rewrite (of_Z_inj _ _ Hs). }
  split; [exact Ha|]. rewrite Ha. clear Ha Hs answer.
  unfold age_text.
  repeat split; intros; subst;
    repeat (match goal with
            | |- context [1 <? ?x] => destruct (Z.ltb_spec 1 x)
            end; try reflexivity);
    exfalso; Z.div_mod_to_equations; lia.
Qed.

Lemma how_long_ago_first_match_witness :
  ToNumber (VStr "1699913600") = Fin (1699913600 # 1)
  /\ (0 <= 1699913600 # 1)%Q
  /\ Math_floor (num_sub (fst (now (fun _ => 1700000000000) 0))
                   (ToNumber (VStr "1699913600")))
     = of_Z 86400
  /\ fst (how_long_ago (fun _ => 1700000000000) (VStr "1699913600") 0)
     = "24 hours ago"%string.
Proof.
  split; [reflexivity|]. split; [unfold Qle; simpl; lia|].
  split; [reflexivity|].
  apply (how_long_ago_first_match (fun _ => 1700000000000)
           (VStr "1699913600") 0 (1699913600 # 1) 86400);
    [reflexivity | unfold Qle; simpl; lia | lia | reflexivity | reflexivity].
Defined.

Example how_long_ago_samples :
  let ask age := fst (how_long_ago (fun _ => 1700000000000)
                        (VNum (of_Z (1700000000 - age))) 0) in
  ask <$> [0; 1; 2; 90; 119; 120; 7199; 7200; 86400; 172800; 5184000; 63072000]
  = ["about now"; "about now"; "2 seconds ago"; "90 seconds ago";
     "119 seconds ago"; "2 minutes ago"; "119 minutes ago"; "2 hours ago";
     "24 hours ago"; "2 days ago"; "2 months ago"; "2 years ago"]%string.
Proof. vm_compute. reflexivity. Qed.

(** C6: a timestamp below zero is answered "never", whatever the clock
    shows; the clock is not even read. *)
Theorem how_long_ago_never (getTime : nat -> Z) (timestamp : value)
    (tick : nat) (t : Q) :
  ToNumber timestamp = Fin t -> (t < 0)%Q ->
  how_long_ago getTime timestamp tick = ("never"%string, tick).
Proof.
  intros Hn Ht. unfold how_long_ago.
  rewrite lt_number_r, Hn.
  replace (num_lt (Fin t) (of_Z 0)) with true; [reflexivity|].
  symmetry. by apply Qlt_bool_iff.
Qed.

Lemma how_long_ago_never_witness :
  ToNumber (VStr "-1") = Fin (-1 # 1)
  /\ (-1 # 1 < 0)%Q
  /\ how_long_ago (fun n => Z.of_nat n) (VStr "-1") 7 = ("never"%string, 7%nat).
Proof.
  split; [reflexivity|]. split; [reflexivity|].
  apply (how_long_ago_never (fun n => Z.of_nat n) (VStr "-1") 7 (-1 # 1));
    reflexivity.
Defined.

(** C8: an input whose numeric value is NaN makes every comparison of the
    cascade false: [how_long_ago] ends normally with "about now". *)
Theorem how_long_ago_not_a_number (getTime : nat -> Z) (timestamp : value)
    (tick : nat) :
  ToNumber timestamp = NaN ->
  how_long_ago getTime timestamp tick = ("about now"%string, S tick).
Proof.
  intros Hn. unfold how_long_ago.
  rewrite lt_number_r, Hn. reflexivity.
Qed.

Lemma how_long_ago_not_a_number_witness :
  ToNumber (VStr "yesterday") = NaN
  /\ how_long_ago (fun _ => 1700000000000) (VStr "yesterday") 0
     = ("about now"%string, 1%nat).
Proof.
  split; [reflexivity|].
  apply (how_long_ago_not_a_number (fun _ => 1700000000000)
           (VStr "yesterday") 0).
  reflexivity.
Defined.

(** *** The age renderer *)

Lemma Qlt_bool_dec (x y : Q) :
  Qlt_bool x y = if Qlt_le_dec x y then true else false.
Proof.
  destruct (Qlt_le_dec x y).
  - by apply Qlt_bool_iff.
  - by apply Qlt_bool_false_iff.
Qed.

Lemma num_lt_Fin_of_Z (a : Q) (z : Z) :
  num_lt (Fin a) (of_Z z) = if Qlt_le_dec a (inject_Z z) then true else false.
Proof. apply Qlt_bool_dec. Qed.

Lemma append_empty_r (s : string) : (s ++ "")%string = s.
Proof.
  induction s as [|c s IH]; [done|]. exact (f_equal (String c) IH).
Qed.

(** What the loop body does to the class of one element. *)
Lemma replace_timestamp_className (getTime : nat -> Z) (e : element)
    (tick : nat) (t : Q) :
  ToNumber (VStr (innerHTML e)) = Fin t ->
  className (fst (replace_timestamp getTime e tick))
  = if Qlt_le_dec 0 t
    then (className e ++ age_band (clock_seconds getTime (S tick) - t))%string
    else className e.
Proof.
  intros Hn. unfold replace_timestamp.
  rewrite gt_number_r, Hn.
  change (num_lt (of_Z 0) (Fin t)) with (Qlt_bool (inject_Z 0) t).
  rewrite Qlt_bool_dec.
  destruct (Qlt_le_dec 0 t) as [Hpos|Hneg].
  - change (Qlt_le_dec (inject_Z 0) t) with (Qlt_le_dec 0 t).
    destruct (Qlt_le_dec 0 t) as [_|Hle];
      [|exfalso; exact (Qlt_not_le _ _ Hpos Hle)].
    rewrite (how_long_ago_cascade getTime _ tick t Hn (Qlt_le_weak _ _ Hpos)).
    unfold now. cbn [num_sub num_div of_Z].
    change (2 * 60 * 60) with 7200.
    change (3 * 24 * 60 * 60) with 259200.
    change (30 * 24 * 60 * 60) with 2592000.
    rewrite !num_lt_Fin_of_Z. unfold age_band, clock_seconds.
    repeat (destruct (Qlt_le_dec _ _); [reflexivity|]).
    cbn. by rewrite append_empty_r.
  - change (Qlt_le_dec (inject_Z 0) t) with (Qlt_le_dec 0 t).
    destruct (Qlt_le_dec 0 t) as [Hpos|_];
      [exfalso; exact (Qlt_not_le _ _ Hpos Hneg)|].
    by destruct (how_long_ago _ _ _).
Qed.

(** The [i]-th element after the loop is the loop body applied to the
    [i]-th element before it, started at the number of clock reads that the
    elements in front of it have made. *)
Lemma replace_timestamps_lookup (getTime : nat -> Z) (elements : list element)
    (tick : nat) (i : nat) (e : element) :
  elements !! i = Some e ->
  fst (replace_timestamps getTime elements tick) !! i
  = Some (fst (replace_timestamp getTime e
                 (snd (replace_timestamps getTime (take i elements) tick)))).
Proof.
  revert tick i. induction elements as [|e0 elements IH]; intros tick i Hi.
  - done.
  - destruct i as [|i]; simpl.
    + injection Hi as ->.
      destruct (replace_timestamp getTime e tick) as [e' tick'].
      by destruct (replace_timestamps getTime elements tick').
    + destruct (replace_timestamp getTime e0 tick) as [e' tick'].
      specialize (IH tick' i Hi).
      destruct (replace_timestamps getTime elements tick') as [es' tick''].
      destruct (replace_timestamps getTime (take i elements) tick').
      exact IH.
Qed.

(** C2: [replace_timestamps] appends to the class of an age element with a
    raw timestamp [t > 0] exactly the band of [age], the number that
    [now() - timestamp] yields at the element's second clock read: "
    age-band0" below 7200, " age-band1" below 259200, " age-band2" below
    2592000, nothing from 2592000 on; the classes it had stay in front.  For
    [t <= 0] the class is left as it was.  At the boundaries: 7199 is band
    0, 7200 band 1, 2591999 band 2, 2592000 no band.  [age] is taken as the
    subtraction of the script gives it, whatever the arithmetic of
    numbers. *)
Theorem replace_timestamps_age_band (getTime : nat -> Z)
    (elements : list element) (tick : nat) (i : nat) (e : element) (t : Q) :
  elements !! i = Some e ->
  ToNumber (VStr (innerHTML e)) = Fin t ->
  let read := S (snd (replace_timestamps getTime (take i elements) tick)) in
  exists e',
    fst (replace_timestamps getTime elements tick) !! i = Some e'
    /\ ((0 < t)%Q ->
        forall age : Q,
        num_sub (fst (now getTime read)) (ToNumber (VStr (innerHTML e)))
        = Fin age ->
        className e' = (className e ++ age_band age)%string
        /\ ((age < inject_Z 7200)%Q ->
            className e' = (className e ++ " age-band0")%string)
        /\ ((inject_Z 7200 <= age)%Q -> (age < inject_Z 259200)%Q ->
            className e' = (className e ++ " age-band1")%string)
        /\ ((inject_Z 259200 <= age)%Q -> (age < inject_Z 2592000)%Q ->
            className e' = (className e ++ " age-band2")%string)
        /\ ((inject_Z 2592000 <= age)%Q -> className e' = className e)
        /\ ((age == inject_Z 7199)%Q ->
            className e' = (className e ++ " age-band0")%string)
        /\ ((age == inject_Z 7200)%Q ->
            className e' = (className e ++ " age-band1")%string)
        /\ ((age == inject_Z 2591999)%Q ->
            className e' = (className e ++ " age-band2")%string)
        /\ ((age == inject_Z 2592000)%Q -> className e' = className e))
    /\ ((t <= 0)%Q -> className e' = className e).
Proof.
  intros Hi Hn read.
  eexists. split; [by apply replace_timestamps_lookup|].
  rewrite (replace_timestamp_className _ _ _ t Hn).
  fold read.
  destruct (Qlt_le_dec 0 t) as [Hpos|Hneg].
  - split; [|intros Hle; exfalso; exact (Qlt_not_le _ _ Hpos Hle)].
    intros _ age Hage. rewrite Hn in Hage.
    assert (E : (clock_seconds getTime read - t)%Q = age)
      by (by injection Hage).
    rewrite E. clear E Hage. unfold age_band.
    repeat split; intros;
      repeat (destruct (Qlt_le_dec _ _) as [?|?]);
      try reflexivity; try apply append_empty_r;
      exfalso; destruct age as [n d];
      unfold Qlt, Qle, Qeq, inject_Z in *; simpl in *; lia.
  - split; [intros Hpos; exfalso; exact (Qlt_not_le _ _ Hpos Hneg)|done].
Qed.

Lemma replace_timestamps_age_band_witness :
  exists e',
    fst (replace_timestamps (fun _ => 10000000)
           [Element "age" "-1" "none"; Element "age" "2801" "none"] 0) !! 1%nat
    = Some e'
    /\ className e' = "age age-band0"%string.
Proof.
  destruct (replace_timestamps_age_band (fun _ => 10000000)
              [Element "age" "-1" "none"; Element "age" "2801" "none"]
              0 1 (Element "age" "2801" "none") (2801 # 1))
    as (e' & Hlook & Hpos & _); [reflexivity | reflexivity |].
  exists e'. split; [exact Hlook|].
  destruct (Hpos eq_refl _ eq_refl) as (_ & H0 & _).
  apply H0. reflexivity.
Defined.

Example replace_timestamps_boundaries :
  className <$>
    fst (replace_timestamps (fun _ => 10000000000)
           [Element "age" "9992801" ""; Element "age" "9992800" "";
            Element "age" "7408001" ""; Element "age" "7408000" "";
            Element "age" "0" ""; Element "age" "-1" ""] 0)
  = ["age age-band0"; "age age-band1"; "age age-band2"; "age"; "age"; "age"].
Proof. vm_compute. reflexivity. Qed.

(** *** The visibility toggle *)

(** C5: on an element shown by default ("") or hidden ("none"), [toggle]
    switches to the other of the two states and a second [toggle] restores
    the document; on an element in any other display state one or two calls
    change nothing. *)
Theorem toggle_involution (id : string) (document : gmap string element)
    (e : element) :
  document !! id = Some e ->
  (style_display e = ""%string ->
   exists d1 e1, toggle id document = Ok d1
     /\ d1 !! id = Some e1 /\ style_display e1 = "none"%string
     /\ toggle id d1 = Ok document)
  /\ (style_display e = "none"%string ->
      exists d1 e1, toggle id document = Ok d1
        /\ d1 !! id = Some e1 /\ style_display e1 = ""%string
        /\ toggle id d1 = Ok document)
  /\ (style_display e <> ""%string -> style_display e <> "none"%string ->
      toggle id document = Ok document
      /\ (toggle id document ≫= toggle id) = Ok document).
Proof.
  intros Hid. repeat split.
  - intros Hd.
    exists (<[id := set_style_display e "none"]> document),
           (set_style_display e "none").
    unfold toggle. rewrite Hid, Hd, lookup_insert_eq. cbn.
    repeat split.
    rewrite insert_insert_eq. f_equal. apply insert_id.
    rewrite Hid. f_equal. destruct e; cbn in *; by subst.
  - intros Hd.
    exists (<[id := set_style_display e ""]> document),
           (set_style_display e "").
    unfold toggle. rewrite Hid, Hd, lookup_insert_eq. cbn.
    repeat split.
    rewrite insert_insert_eq. f_equal. apply insert_id.
    rewrite Hid. f_equal. destruct e; cbn in *; by subst.
  - unfold toggle. rewrite Hid.
    destruct (String.eqb_spec (style_display e) ""); [done|].
    by destruct (String.eqb_spec (style_display e) "none").
  - unfold toggle. rewrite Hid.
    destruct (String.eqb_spec (style_display e) ""); [done|].
    destruct (String.eqb_spec (style_display e) "none"); [done|].
    cbn. rewrite Hid.
    destruct (String.eqb_spec (style_display e) ""); [done|].
    by destruct (String.eqb_spec (style_display e) "none").
Qed.

Lemma toggle_involution_witness :
  (toggle "log" {[ "log"%string := Element "box" "text" "" ]}
   ≫= toggle "log")
  = Ok {[ "log"%string := Element "box" "text" "" ]}.
Proof.
  destruct (toggle_involution "log"
              {[ "log"%string := Element "box" "text" "" ]}
              (Element "box" "text" "") (lookup_singleton_eq _ _))
    as (H & _).
  destruct (H eq_refl) as (d1 & e1 & -> & _ & _ & H2). exact H2.
Defined.

(** *** The table sorter: sort state *)

(** C3: a call of [sortTable] on the column it sorted by last flips the
    direction and keeps the column; a call on another column sets the
    direction to ascending and remembers that column. *)
Theorem sortTable_direction_policy (columnIndex : Z) (dataType : string)
    (pg : page) (rows : list row) :
  repos_table pg = Some (Some rows) ->
  let pg' := fst (sortTable columnIndex dataType pg) in
  (columnIndex = currentSortColumn pg ->
   currentSortDirection pg' = opposite (currentSortDirection pg)
   /\ currentSortColumn pg' = currentSortColumn pg)
  /\ (columnIndex <> currentSortColumn pg ->
      currentSortDirection pg' = asc /\ currentSortColumn pg' = columnIndex).
Proof.
  intros Ht. unfold sortTable. rewrite Ht.
  destruct (Z.eqb_spec (currentSortColumn pg) columnIndex) as [Heq|Hne];
    (split; [intros Hc|intros Hc]; try congruence);
    by destruct (Array_sort _ _).
Qed.

Lemma sortTable_direction_policy_witness :
  let pg := Page (Some (Some [Row 0 [Cell "b" None]; Row 1 [Cell "a" None]]))
              [""] 0 desc in
  currentSortDirection (fst (sortTable 0 "string" pg)) = asc
  /\ currentSortColumn (fst (sortTable 0 "string" pg)) = 0.
Proof.
  intros pg.
  destruct (sortTable_direction_policy 0 "string" pg _ eq_refl) as [H _].
  exact (H eq_refl).
Defined.

(** C10: on a freshly loaded page, whose remembered column is the
    sentinel -1, [sortTable(-1, dataType)] takes the same-column branch:
    the direction becomes descending and the column stays -1. *)
Theorem sortTable_sentinel_column (dataType : string) (rows : list row)
    (indicators : list string) :
  let pg' := fst (sortTable (-1) dataType
                    (initial_page (Some (Some rows)) indicators)) in
  currentSortDirection pg' = desc /\ currentSortColumn pg' = -1.
Proof.
  unfold sortTable, initial_page. cbn.
  by destruct (Array_sort _ _).
Qed.

(** With two rows or more the same call ends in a TypeError, since no
    row has a cell -1; the sort state has changed all the same. *)
Example sentinel_column_sort_throws :
  let pg := initial_page
              (Some (Some [Row 0 [Cell "b" None]; Row 1 [Cell "a" None]]))
              [""] in
  sortTable (-1) "string" pg
  = ({| repos_table := repos_table pg; sort_indicators := [""];
        currentSortColumn := -1; currentSortDirection := desc |}, TypeError).
Proof. reflexivity. Qed.

(** *** The table sorter: rows *)

Lemma sort_insert_Permutation {A} (cmp : A -> A -> outcome Z) (x : A)
    (l l' : list A) :
  sort_insert cmp x l = Ok l' -> l' ≡ₚ x :: l.
Proof.
  revert l'. induction l as [|y l IH]; intros l' H; cbn in H.
  - by injection H as <-.
  - destruct (cmp x y) as [c|]; [|discriminate]. cbn in H.
    destruct (c <=? 0).
    + by injection H as <-.
    + destruct (sort_insert cmp x l) as [l''|]; [|discriminate].
      cbn in H. injection H as <-.
      rewrite (IH l'' eq_refl). apply Permutation_swap.
Qed.

Lemma Array_sort_Permutation {A} (cmp : A -> A -> outcome Z) (l l' : list A) :
  Array_sort cmp l = Ok l' -> l' ≡ₚ l.
Proof.
  revert l'. induction l as [|x l IH]; intros l' H; cbn in H.
  - by injection H as <-.
  - destruct (Array_sort cmp l) as [s|]; [|discriminate]. cbn in H.
    apply sort_insert_Permutation in H. rewrite H. by rewrite (IH s).
Qed.

Lemma filter_all {A} (P : A -> Prop) `{!forall x, Decision (P x)} (l : list A) :
  (forall x, x ∈ l -> P x) -> filter P l = l.
Proof.
  induction l as [|x l IH]; intros Hl; [done|].
  rewrite filter_cons_True by (apply Hl; left).
  f_equal. apply IH. intros y Hy. apply Hl. by right.
Qed.

Lemma filter_none {A} (P : A -> Prop) `{!forall x, Decision (P x)} (l : list A) :
  (forall x, x ∈ l -> ~ P x) -> filter P l = [].
Proof.
  induction l as [|x l IH]; intros Hl; [done|].
  rewrite filter_cons_False by (apply Hl; left).
  apply IH. intros y Hy. apply Hl. by right.
Qed.

(** Appending the rows of [rows] one after the other leaves them at the
    end, in that order, behind the children that are not among them. *)
Lemma fold_appendChild (rows children : list row) :
  NoDup (node <$> rows) ->
  fold_left appendChild rows children
  = filter (fun x => node x ∉ node <$> rows) children ++ rows.
Proof.
  revert children. induction rows as [|r rows IH]; intros children Hnd.
  - cbn. rewrite app_nil_r. symmetry. apply filter_all.
    intros x _. apply not_elem_of_nil.
  - rewrite fmap_cons in Hnd. apply NoDup_cons in Hnd as [Hr Hnd].
    cbn [fold_left].
    rewrite (IH _ Hnd). unfold appendChild.
    rewrite filter_app, list_filter_filter.
    rewrite (filter_cons_True _ r) by done.
    rewrite filter_nil, <- app_assoc. f_equal.
    apply list_filter_iff. intros x.
    rewrite fmap_cons, not_elem_of_cons. tauto.
Qed.

Lemma fold_appendChild_Permutation (rows children : list row) :
  NoDup (node <$> children) -> rows ≡ₚ children ->
  fold_left appendChild rows children = rows.
Proof.
  intros Hnd Hp. rewrite fold_appendChild by (by rewrite Hp).
  rewrite filter_none; [done|].
  intros x Hx Hn. apply Hn.
  apply list_elem_of_fmap_2. by rewrite Hp.
Qed.

(** The rows that a completed [sortTable] leaves are the array that
    [sort] returned. *)
Lemma sortTable_rows (columnIndex : Z) (dataType : string) (pg : page)
    (rows : list row) :
  repos_table pg = Some (Some rows) -> NoDup (node <$> rows) ->
  let pg1 := fst (sortTable columnIndex dataType pg) in
  match Array_sort
          (compare_rows columnIndex dataType (currentSortDirection pg1))
          rows with
  | Ok sorted =>
      repos_table pg1 = Some (Some sorted)
      /\ snd (sortTable columnIndex dataType pg) = Ok ()
  | TypeError =>
      repos_table pg1 = Some (Some rows)
      /\ snd (sortTable columnIndex dataType pg) = TypeError
  end.
Proof.
  intros Ht Hnd. unfold sortTable. rewrite Ht.
  set (pg0 := if currentSortColumn pg =? columnIndex then _ else _).
  assert (Hrows : repos_table pg0 = Some (Some rows))
    by (unfold pg0; by destruct (_ =? _)).
  assert (Hdir : forall o : outcome (list row),
             currentSortDirection
               (fst match o with
                    | Ok sorted =>
                        ({| repos_table :=
                              Some (Some (fold_left appendChild sorted rows));
                            sort_indicators :=
                              updateSortIndicators columnIndex
                                (currentSortDirection pg0)
                                (sort_indicators pg0);
                            currentSortColumn := currentSortColumn pg0;
                            currentSortDirection := currentSortDirection pg0 |},
                         Ok ())
                    | TypeError => (pg0, TypeError)
                    end)
             = currentSortDirection pg0) by (by intros []).
  cbn zeta. rewrite Hdir.
  destruct (Array_sort _ rows) as [sorted|] eqn:Hs; cbn; [|done].
  split; [|done]. do 2 f_equal.
  apply fold_appendChild_Permutation; [done|].
  by apply Array_sort_Permutation in Hs.
Qed.

(** The numeric column, ascending then descending, with its indicator. *)
Example sortTable_numeric_column :
  let beta := Row 0 [Cell "beta" None; Cell "1" (Some (Some "100"))] in
  let alpha := Row 1 [Cell "alpha" None; Cell "3" (Some (Some "300"))] in
  let gamma := Row 2 [Cell "gamma" None; Cell "2" (Some (Some "200"))] in
  let pg := initial_page (Some (Some [beta; alpha; gamma])) [""; ""] in
  let pg1 := fst (sortTable 1 "number" pg) in
  let pg2 := fst (sortTable 1 "number" pg1) in
  table_rows pg1 = [beta; gamma; alpha]
  /\ sort_indicators pg1 = [""; " ▲"]%string
  /\ table_rows pg2 = [alpha; gamma; beta]
  /\ sort_indicators pg2 = [""; " ▼"]%string.
Proof. vm_compute. repeat split. Qed.

(** C7: after any call of [sortTable] the rows under the table body are a
    permutation of the rows that were there, the same row nodes with the
    same cells. *)
Theorem sortTable_permutes_rows (columnIndex : Z) (dataType : string)
    (pg : page) (rows : list row) :
  repos_table pg = Some (Some rows) -> NoDup (node <$> rows) ->
  exists rows',
    repos_table (fst (sortTable columnIndex dataType pg)) = Some (Some rows')
    /\ rows' ≡ₚ rows.
Proof.
  intros Ht Hnd.
  pose proof (sortTable_rows columnIndex dataType pg rows Ht Hnd) as H.
  cbn zeta in H.
  destruct (Array_sort _ rows) as [sorted|] eqn:Hs; destruct H as [H _].
  - exists sorted. split; [done|]. by apply Array_sort_Permutation in Hs.
  - by exists rows.
Qed.

Lemma sortTable_permutes_rows_witness :
  let rows := [Row 0 [Cell "beta" None]; Row 1 [Cell "alpha" None];
               Row 2 [Cell "gamma" None]] in
  exists rows',
    repos_table (fst (sortTable 0 "string"
                        (initial_page (Some (Some rows)) [""])))
    = Some (Some rows')
    /\ rows' ≡ₚ rows.
Proof.
  intros rows.
  apply (sortTable_permutes_rows 0 "string"
           (initial_page (Some (Some rows)) [""]) rows eq_refl).
  apply (bool_decide_unpack (NoDup (node <$> rows))). vm_compute. exact I.
Defined.

(** *** The table sorter: string keys *)

Lemma lower_char_case_variant (c d : ascii) :
  case_variant c d -> lower_char c = lower_char d.
Proof.
  unfold case_variant, lower_char.
  pose proof (ascii_N_embedding c) as Hc.
  pose proof (ascii_N_embedding d) as Hd.
  set (m := N_of_ascii c) in *. set (n := N_of_ascii d) in *.
  clearbody m n. intros [E|[[Hm E]|[Hn E]]];
    repeat match goal with
      | |- context [(?a <=? ?b)%N] => destruct (N.leb_spec a b)
      end; cbn [andb]; try lia.
  all: rewrite <- ?Hc, <- ?Hd, E; reflexivity.
Qed.

Lemma is_whitespace_lower_char (c : ascii) :
  is_whitespace (lower_char c) = is_whitespace c.
Proof. by destruct c as [[] [] [] [] [] [] [] []]. Qed.

Lemma blank_is_whitespace (c : ascii) :
  c ∈ ["009"; "010"; "011"; "012"; "013"; " "]%char -> is_whitespace c = true.
Proof.
  rewrite !elem_of_cons, elem_of_nil.
  intros [->|[->|[->|[->|[->|[->|[]]]]]]]; reflexivity.
Qed.

Lemma toLowerCase_differ_in_case (s t : string) :
  differ_in_case s t -> toLowerCase s = toLowerCase t.
Proof.
  induction 1 as [|c d s t Hc _ IH]; [done|].
  cbn. by rewrite (lower_char_case_variant c d Hc), IH.
Qed.

Lemma toLowerCase_trim_start (s : string) :
  toLowerCase (trim_start s) = trim_start (toLowerCase s).
Proof.
  induction s as [|c s IH]; [done|].
  cbn. rewrite is_whitespace_lower_char.
  by destruct (is_whitespace c).
Qed.

Lemma toLowerCase_trim_end (s : string) :
  toLowerCase (trim_end s) = trim_end (toLowerCase s).
Proof.
  induction s as [|c s IH]; [done|].
  cbn. rewrite <- IH, is_whitespace_lower_char.
  destruct (trim_end s); cbn; [|done].
  by destruct (is_whitespace c).
Qed.

Lemma toLowerCase_trim (s : string) :
  toLowerCase (trim s) = trim (toLowerCase s).
Proof.
  unfold trim. by rewrite toLowerCase_trim_end, toLowerCase_trim_start.
Qed.

Lemma trim_start_blank (l s : string) :
  blank l -> trim_start (l ++ s) = trim_start s.
Proof.
  induction l as [|c l IH]; [done|]. intros [Hc Hl].
  change (String c l ++ s)%string with (String c (l ++ s)).
  cbn. rewrite (blank_is_whitespace c Hc). by apply IH.
Qed.

Lemma trim_end_blank (r : string) : blank r -> trim_end r = ""%string.
Proof.
  induction r as [|c r IH]; [done|]. intros [Hc Hr].
  cbn. by rewrite (IH Hr), (blank_is_whitespace c Hc).
Qed.

Lemma trim_end_app_blank (s r : string) :
  blank r -> trim_end (s ++ r) = trim_end s.
Proof.
  intros Hr. induction s as [|c s IH].
  - by apply trim_end_blank.
  - change (String c s ++ r)%string with (String c (s ++ r)).
    cbn. by rewrite IH.
Qed.

Lemma trim_start_only_blank (r : string) :
  blank r -> trim_start r = ""%string.
Proof.
  induction r as [|c r IH]; [done|]. intros [Hc Hr].
  cbn. rewrite (blank_is_whitespace c Hc). by apply IH.
Qed.

(** White space around a text does not show after [trim]. *)
Lemma trim_app_blank (l m r : string) :
  blank l -> blank r -> trim (l ++ m ++ r) = trim m.
Proof.
  intros Hl Hr. unfold trim. rewrite (trim_start_blank l _ Hl). clear l Hl.
  induction m as [|c m IH].
  - change ("" ++ r)%string with r.
    by rewrite (trim_start_only_blank r Hr).
  - change (String c m ++ r)%string with (String c (m ++ r)).
    cbn [trim_start]. destruct (is_whitespace c); [exact IH|].
    exact (trim_end_app_blank (String c m) r Hr).
Qed.

Lemma String_ltb_irrefl (s : string) : String.ltb s s = false.
Proof.
  unfold String.ltb. pose proof (String.compare_antisym s s) as H.
  by destruct (String.compare s s).
Qed.

(** Texts alike but for case and margin have the same sort key: lowering
    the case does not touch the white space at the ends. *)
Lemma same_but_case_and_margin_key (s t : string) :
  same_but_case_and_margin s t ->
  toLowerCase (trim s) = toLowerCase (trim t).
Proof.
  induction 1 as [s|s t E|s t E|s t u _ IH1 _ IH2].
  - reflexivity.
  - by rewrite !toLowerCase_trim, E.
  - by rewrite E.
  - by rewrite IH1.
Qed.

(** The variants spelled out letter by letter and blank by blank are
    among them. *)
Lemma differ_in_case_and_margin_same (a b : string) :
  differ_in_case_and_margin a b -> same_but_case_and_margin a b.
Proof.
  intros (l1 & m1 & r1 & l2 & m2 & r2 & -> & -> &
          Hl1 & Hr1 & Hl2 & Hr2 & Hm).
  apply (same_by_steps _ m1); [apply same_but_margin|].
  { by rewrite trim_app_blank. }
  apply (same_by_steps _ m2); [apply same_but_case|apply same_but_margin].
  - by apply toLowerCase_differ_in_case.
  - by rewrite trim_app_blank.
Qed.

Lemma compare_rows_same_key (columnIndex : Z) (dataType : string)
    (dir : direction) (a b : row) (cellA cellB : cell) :
  dataType <> "number"%string ->
  cells_at a columnIndex = Some cellA ->
  cells_at b columnIndex = Some cellB ->
  toLowerCase (trim (textContent cellA))
  = toLowerCase (trim (textContent cellB)) ->
  compare_rows columnIndex dataType dir a b = Ok 0.
Proof.
  intros Hdt Ha Hb E.
  unfold compare_rows. rewrite Ha, Hb.
  apply String.eqb_neq in Hdt. rewrite Hdt. cbn. rewrite E.
  unfold gt, lt. rewrite String_ltb_irrefl.
  by destruct dir.
Qed.



(** The same for the variants spelled out: blanks around texts that
    differ letter by letter in the case of A to Z. *)
Lemma compare_rows_letters_and_blanks (columnIndex : Z)
    (dataType : string) (dir : direction) (a b : row) (cellA cellB : cell) :
  dataType <> "number"%string ->
  cells_at a columnIndex = Some cellA ->
  cells_at b columnIndex = Some cellB ->
  differ_in_case_and_margin (textContent cellA) (textContent cellB) ->
  compare_rows columnIndex dataType dir a b = Ok 0.
Proof.
  intros Hdt Ha Hb H.
  apply (compare_rows_same_key _ _ _ _ _ cellA cellB Hdt Ha Hb).
  by apply same_but_case_and_margin_key, differ_in_case_and_margin_same.
Qed.

(** *** Stable sorting with a consistent comparator *)

Lemma filter_ext_in {A} (P Q : A -> Prop) `{!forall x, Decision (P x)}
    `{!forall x, Decision (Q x)} (l : list A) :
  (forall x, x ∈ l -> P x <-> Q x) -> filter P l = filter Q l.
Proof.
  induction l as [|x l IH]; intros Hl; [done|].
  rewrite !filter_cons.
  rewrite IH by (intros y Hy; apply Hl; by right).
  destruct (decide (P x)) as [HP|HP], (decide (Q x)) as [HQ|HQ];
    try done; exfalso; pose proof (Hl x (list_elem_of_here _ _)); tauto.
Qed.

Lemma StronglySorted_reverse {A} (R : relation A) (l : list A) :
  StronglySorted R l -> StronglySorted (flip R) (reverse l).
Proof.
  induction 1 as [|x l _ IH Hx]; [constructor|].
  rewrite reverse_cons. apply StronglySorted_app_2.
  - intros x1 x2 H1 H2. apply list_elem_of_singleton in H2 as ->.
    rewrite elem_of_reverse in H1. rewrite Forall_forall in Hx.
    exact (Hx _ H1).
  - exact IH.
  - repeat constructor.
Qed.

Lemma insert_by_Permutation {A} (cmp : A -> A -> Z) (x : A) (l : list A) :
  insert_by cmp x l ≡ₚ x :: l.
Proof.
  induction l as [|y l IH]; [done|]. cbn.
  destruct (cmp x y <=? 0); [done|].
  rewrite IH. apply Permutation_swap.
Qed.

Lemma stable_sort_Permutation {A} (cmp : A -> A -> Z) (l : list A) :
  stable_sort cmp l ≡ₚ l.
Proof.
  induction l as [|x l IH]; [done|]. cbn.
  by rewrite insert_by_Permutation, IH.
Qed.

Section consistent_comparator.

Context {A : Type} (cmp : A -> A -> Z) (D : A -> Prop).

(** The comparator is consistent on the elements of [D]. *)
Hypothesis cmp_antisym : forall x y, D x -> D y -> cmp y x = - cmp x y.
Hypothesis cmp_trans : forall x y z, D x -> D y -> D z ->
  cmp x y <= 0 -> cmp y z <= 0 -> cmp x z <= 0.

Lemma stable_sort_Forall (l : list A) : Forall D l -> Forall D (stable_sort cmp l).
Proof. intros H. by rewrite stable_sort_Permutation. Qed.

Lemma insert_by_StronglySorted (x : A) (l : list A) :
  D x -> Forall D l ->
  StronglySorted (fun a b => cmp a b <= 0) l ->
  StronglySorted (fun a b => cmp a b <= 0) (insert_by cmp x l).
Proof.
  intros Hx Hl Hs. induction Hs as [|y l Hs IH Hy]; cbn.
  - repeat constructor.
  - apply Forall_cons in Hl as [Dy Hl].
    destruct (Z.leb_spec (cmp x y) 0) as [Hle|Hgt].
    + constructor; [by constructor|]. constructor; [done|].
      rewrite Forall_forall in Hy, Hl |- *. intros z Hz.
      apply (cmp_trans x y z); auto.
    + constructor; [by apply IH|].
      rewrite insert_by_Permutation. constructor; [|done].
      rewrite (cmp_antisym x y) by done. lia.
Qed.

Lemma stable_sort_StronglySorted (l : list A) :
  Forall D l -> StronglySorted (fun a b => cmp a b <= 0) (stable_sort cmp l).
Proof.
  induction l as [|x l IH]; intros Hl; cbn; [constructor|].
  apply Forall_cons in Hl as [Hx Hl].
  apply insert_by_StronglySorted; auto using stable_sort_Forall.
Qed.

(** Insertion passes only elements that are not tied with the new one. *)
Lemma insert_by_tie (z x : A) (l : list A) :
  D z -> D x -> Forall D l ->
  filter (tie cmp z) (insert_by cmp x l) = filter (tie cmp z) (x :: l).
Proof.
  intros Hz Hx Hl. induction l as [|y l IH]; [done|]. cbn [insert_by].
  apply Forall_cons in Hl as [Hy Hl].
  destruct (Z.leb_spec (cmp x y) 0) as [Hle|Hgt]; [done|].
  rewrite (filter_cons _ y), (IH Hl), !(filter_cons _ x), (filter_cons _ y).
  destruct (decide (tie cmp z y)) as [[Hzy Hyz]|Hy'];
    destruct (decide (tie cmp z x)) as [[Hzx Hxz]|Hx']; try done.
  exfalso. pose proof (cmp_trans x z y Hx Hz Hy Hxz Hzy). lia.
Qed.

(** The sort is stable: tied elements keep their order. *)
Lemma stable_sort_tie (z : A) (l : list A) :
  D z -> Forall D l ->
  filter (tie cmp z) (stable_sort cmp l) = filter (tie cmp z) l.
Proof.
  intros Hz. induction l as [|x l IH]; intros Hl; [done|].
  cbn [stable_sort]. apply Forall_cons in Hl as [Hx Hl].
  rewrite insert_by_tie by auto using stable_sort_Forall.
  by rewrite !(filter_cons _ x), IH.
Qed.

(** Two sorted arrangements that agree on each class of tied elements are
    the same list. *)
Lemma sorted_tie_unique (l1 l2 : list A) :
  Forall D l1 -> Forall D l2 ->
  StronglySorted (fun a b => cmp a b <= 0) l1 ->
  StronglySorted (fun a b => cmp a b <= 0) l2 ->
  (forall z, D z -> filter (tie cmp z) l1 = filter (tie cmp z) l2) ->
  l1 = l2.
Proof.
  intros H1 H2 S1. revert l2 H2.
  induction S1 as [|a l1 S1 IH Ha]; intros l2 H2 S2 Ht.
  - destruct l2 as [|b l2]; [done|]. exfalso.
    apply Forall_cons in H2 as [Hb _]. specialize (Ht b Hb).
    rewrite filter_nil, filter_cons_True in Ht; [done|].
    pose proof (cmp_antisym b b Hb Hb). split; lia.
  - apply Forall_cons in H1 as [Da H1].
    assert (Haa : tie cmp a a)
      by (pose proof (cmp_antisym a a Da Da); split; lia).
    destruct S2 as [|b l2 S2 Hb].
    { specialize (Ht a Da). by rewrite filter_cons_True in Ht. }
    apply Forall_cons in H2 as [Db H2].
    assert (Hbb : tie cmp b b)
      by (pose proof (cmp_antisym b b Db Db); split; lia).
    assert (Hab : tie cmp a b).
    { split.
      - pose proof (Ht b Db) as E.
        rewrite (filter_cons_True _ b l2) in E by done.
        assert (Hin : b ∈ filter (tie cmp b) (a :: l1))
          by (rewrite E; left).
        apply list_elem_of_filter in Hin as [_ Hin].
        apply elem_of_cons in Hin as [->|Hin]; [apply Haa|].
        rewrite Forall_forall in Ha. by apply Ha.
      - pose proof (Ht a Da) as E.
        rewrite (filter_cons_True _ a l1) in E by done.
        assert (Hin : a ∈ filter (tie cmp a) (b :: l2))
          by (rewrite <- E; left).
        apply list_elem_of_filter in Hin as [_ Hin].
        apply elem_of_cons in Hin as [->|Hin]; [apply Hbb|].
        rewrite Forall_forall in Hb. by apply Hb. }
    assert (a = b) as <-.
    { pose proof (Ht a Da) as E.
      rewrite !filter_cons_True in E by done. by injection E. }
    f_equal. apply IH; [done..|].
    intros z Dz. specialize (Ht z Dz). rewrite !(filter_cons _ a) in Ht.
    destruct (decide (tie cmp z a)); [by injection Ht|done].
Qed.

End consistent_comparator.

(** *** The order of the extracted values *)

Lemma num_lt_asym (x y : number) : num_lt x y = true -> num_lt y x = false.
Proof.
  destruct x as [|[]|a], y as [|[]|b]; cbn; try done.
  rewrite Qlt_bool_iff, Qlt_bool_false_iff. apply Qlt_le_weak.
Qed.

Lemma num_le_trans (x y z : number) :
  x <> NaN -> y <> NaN -> z <> NaN ->
  num_lt y x = false -> num_lt z y = false -> num_lt z x = false.
Proof.
  destruct x as [|[]|a], y as [|[]|b], z as [|[]|c]; cbn; try done.
  rewrite !Qlt_bool_false_iff. intros _ _ _. apply Qle_trans.
Qed.

Lemma String_ltb_leb (s t : string) : String.ltb t s = negb (String.leb s t).
Proof.
  unfold String.ltb, String.leb. rewrite (String.compare_antisym t s).
  by destruct (String.compare s t).
Qed.

Lemma String_ltb_asym (s t : string) :
  String.ltb s t = true -> String.ltb t s = false.
Proof.
  unfold String.ltb. rewrite (String.compare_antisym t s).
  by destruct (String.compare s t).
Qed.

Lemma String_le_trans (s t u : string) :
  String.ltb t s = false -> String.ltb u t = false -> String.ltb u s = false.
Proof.
  rewrite !String_ltb_leb, !Bool.negb_false_iff. intros H1 H2.
  pose proof (@transitivity _ String.le _ s t u) as H.
  unfold String.le in H. apply Is_true_true. apply H; by apply Is_true_true.
Qed.

Lemma lt_asym (a b : value) :
  comparable a b -> lt a b = true -> lt b a = false.
Proof.
  destruct a as [| |x|s], b as [| |y|t]; try done; cbn; intros _.
  - apply num_lt_asym.
  - apply String_ltb_asym.
Qed.

Lemma lt_le_trans (a b c : value) :
  comparable a b -> comparable b c ->
  lt b a = false -> lt c b = false -> lt c a = false.
Proof.
  destruct a as [| |x|s], b as [| |y|t], c as [| |z|u]; try done; cbn.
  - intros [Hx Hy] [_ Hz]. by apply num_le_trans.
  - intros _ _. apply String_le_trans.
Qed.

Lemma three_way_le (a b : value) : three_way a b <= 0 <-> lt b a = false.
Proof.
  unfold three_way, gt.
  destruct (lt b a); [split; [lia|done]|].
  destruct (lt a b); split; (lia || done).
Qed.

Lemma three_way_antisym (a b : value) :
  comparable a b -> three_way b a = - three_way a b.
Proof.
  intros Hc. unfold three_way, gt.
  destruct (lt a b) eqn:Hab.
  - by rewrite (lt_asym a b Hc Hab).
  - by destruct (lt b a).
Qed.

Lemma three_way_zero (a b : value) :
  three_way a b = 0 <-> lt a b = false /\ lt b a = false.
Proof.
  unfold three_way, gt.
  destruct (lt b a), (lt a b); split; try lia; try done; by intros [? ?].
Qed.

(** *** The comparator on sortable rows *)

Lemma compare_rows_values (columnIndex : Z) (dataType : string)
    (dir : direction) (a b : row) (va vb : value) :
  sort_value columnIndex dataType a = Ok va ->
  sort_value columnIndex dataType b = Ok vb ->
  compare_rows columnIndex dataType dir a b
  = Ok (match dir with
        | asc => three_way va vb
        | desc => - three_way va vb
        end).
Proof.
  unfold sort_value, compare_rows, three_way.
  destruct (cells_at a columnIndex) as [ca|]; [|done].
  destruct (cells_at b columnIndex) as [cb|];
    [|by destruct (String.eqb _ _), (age_span ca)].
  destruct (String.eqb dataType "number"); cbn.
  - destruct (age_span ca) as [sa|]; [|done].
    destruct (age_span cb) as [sb|]; [|done].
    by intros [= <-] [= <-].
  - by intros [= <-] [= <-].
Qed.

Lemma sortable_value (columnIndex : Z) (dataType : string) (r : row) :
  sortable columnIndex dataType r ->
  exists v, sort_value columnIndex dataType r = Ok v
    /\ if String.eqb dataType "number"
       then exists n, v = VNum n /\ n <> NaN
       else exists s, v = VStr s.
Proof.
  unfold sortable, sort_value.
  destruct (cells_at r columnIndex) as [c|]; [|done].
  destruct (String.eqb dataType "number").
  - destruct (age_span c) as [attr|]; [|done].
    destruct (parseFloat _) as [|neg|q] eqn:E; [done|..]; intros _;
      eexists; (split; [done|]); eexists; by split.
  - intros _. eexists. split; [done|]. by eexists.
Qed.

Lemma sortable_comparable (columnIndex : Z) (dataType : string) (a b : row) :
  sortable columnIndex dataType a -> sortable columnIndex dataType b ->
  exists va vb,
    sort_value columnIndex dataType a = Ok va
    /\ sort_value columnIndex dataType b = Ok vb
    /\ comparable va vb.
Proof.
  intros (va & Ha & Ka)%sortable_value (vb & Hb & Kb)%sortable_value.
  exists va, vb. repeat split; [done..|].
  destruct (String.eqb dataType "number").
  - destruct Ka as (x & -> & Hx), Kb as (y & -> & Hy). by split.
  - by destruct Ka as (s & ->), Kb as (t & ->).
Qed.

Lemma row_order_values (columnIndex : Z) (dataType : string)
    (dir : direction) (a b : row) (va vb : value) :
  sort_value columnIndex dataType a = Ok va ->
  sort_value columnIndex dataType b = Ok vb ->
  row_order columnIndex dataType dir a b
  = match dir with
    | asc => three_way va vb
    | desc => - three_way va vb
    end.
Proof.
  intros Ha Hb. unfold row_order.
  by rewrite (compare_rows_values _ _ dir a b va vb Ha Hb).
Qed.

(** On sortable rows the comparator returns, and returns [row_order]. *)
Lemma compare_rows_row_order (columnIndex : Z) (dataType : string)
    (dir : direction) (a b : row) :
  sortable columnIndex dataType a -> sortable columnIndex dataType b ->
  compare_rows columnIndex dataType dir a b
  = Ok (row_order columnIndex dataType dir a b).
Proof.
  intros Ha Hb.
  destruct (sortable_comparable _ _ a b Ha Hb) as (va & vb & Ea & Eb & _).
  rewrite (row_order_values _ _ dir a b va vb Ea Eb).
  by apply compare_rows_values.
Qed.

Lemma row_order_opposite (columnIndex : Z) (dataType : string)
    (dir : direction) (a b : row) :
  row_order columnIndex dataType (opposite dir) a b
  = - row_order columnIndex dataType dir a b.
Proof.
  unfold row_order, compare_rows.
  destruct (if String.eqb dataType "number" then _ else _) as [[va vb]|];
    cbn; [|done].
  destruct dir; cbn; lia.
Qed.

Lemma row_order_antisym (columnIndex : Z) (dataType : string)
    (dir : direction) (a b : row) :
  sortable columnIndex dataType a -> sortable columnIndex dataType b ->
  row_order columnIndex dataType dir b a
  = - row_order columnIndex dataType dir a b.
Proof.
  intros Ha Hb.
  destruct (sortable_comparable _ _ a b Ha Hb) as (va & vb & Ea & Eb & Hc).
  rewrite (row_order_values _ _ dir a b va vb Ea Eb).
  rewrite (row_order_values _ _ dir b a vb va Eb Ea).
  rewrite (three_way_antisym va vb Hc). destruct dir; lia.
Qed.

Lemma row_order_trans (columnIndex : Z) (dataType : string)
    (dir : direction) (a b c : row) :
  sortable columnIndex dataType a -> sortable columnIndex dataType b ->
  sortable columnIndex dataType c ->
  row_order columnIndex dataType dir a b <= 0 ->
  row_order columnIndex dataType dir b c <= 0 ->
  row_order columnIndex dataType dir a c <= 0.
Proof.
  intros Ha Hb Hc.
  destruct (sortable_comparable _ _ a b Ha Hb) as (va & vb & Ea & Eb & Hab).
  destruct (sortable_comparable _ _ b c Hb Hc) as (vb' & vc & Eb' & Ec & Hbc).
  assert (vb' = vb) as -> by congruence.
  rewrite (row_order_values _ _ dir a b va vb Ea Eb).
  rewrite (row_order_values _ _ dir b c vb vc Eb Ec).
  rewrite (row_order_values _ _ dir a c va vc Ea Ec).
  destruct dir.
  - rewrite !three_way_le. by apply lt_le_trans.
  - assert (Hba : comparable vb va)
      by (destruct va, vb; cbn in *; tauto).
    assert (Hcb : comparable vc vb)
      by (destruct vb, vc; cbn in *; tauto).
    assert (Hac : comparable va vc)
      by (destruct va, vb, vc; cbn in *; tauto).
    rewrite <- (three_way_antisym va vb Hab), <- (three_way_antisym vb vc Hbc),
      <- (three_way_antisym va vc Hac), !three_way_le.
    intros H1 H2. by apply (lt_le_trans vc vb va).
Qed.

(** *** Sorting when the comparator returns *)

Lemma sort_insert_insert_by {A} (cmp_m : A -> A -> outcome Z)
    (cmp : A -> A -> Z) (x : A) (l : list A) :
  (forall y, y ∈ l -> cmp_m x y = Ok (cmp x y)) ->
  sort_insert cmp_m x l = Ok (insert_by cmp x l).
Proof.
  induction l as [|y l IH]; intros H; [done|]. cbn.
  rewrite (H y) by left. cbn.
  destruct (cmp x y <=? 0); [done|].
  rewrite IH by (intros z Hz; apply H; by right). done.
Qed.

Lemma Array_sort_stable_sort {A} (cmp_m : A -> A -> outcome Z)
    (cmp : A -> A -> Z) (l : list A) :
  (forall x y, x ∈ l -> y ∈ l -> cmp_m x y = Ok (cmp x y)) ->
  Array_sort cmp_m l = Ok (stable_sort cmp l).
Proof.
  induction l as [|x l IH]; intros H; [done|]. cbn.
  rewrite IH by (intros y z Hy Hz; apply H; by right). cbn.
  apply sort_insert_insert_by. intros y Hy.
  rewrite stable_sort_Permutation in Hy. apply H; [left|by right].
Qed.

(** The sort state that a call on a page with a table body leaves. *)
Lemma sortTable_sort_state (columnIndex : Z) (dataType : string) (pg : page)
    (rows : list row) :
  repos_table pg = Some (Some rows) ->
  let pg1 := fst (sortTable columnIndex dataType pg) in
  currentSortColumn pg1 = columnIndex
  /\ currentSortDirection pg1
     = if currentSortColumn pg =? columnIndex
       then opposite (currentSortDirection pg) else asc.
Proof.
  intros Ht. unfold sortTable. rewrite Ht.
  destruct (Z.eqb_spec (currentSortColumn pg) columnIndex) as [Heq|Hne];
    by destruct (Array_sort _ _).
Qed.

(** A call on a body of sortable rows completes and leaves the rows in
    the stable order of the comparator, in the direction it chose. *)
Lemma sortTable_sortable (columnIndex : Z) (dataType : string) (pg : page)
    (rows : list row) :
  repos_table pg = Some (Some rows) -> NoDup (node <$> rows) ->
  Forall (sortable columnIndex dataType) rows ->
  let pg1 := fst (sortTable columnIndex dataType pg) in
  repos_table pg1
  = Some (Some (stable_sort
                  (row_order columnIndex dataType (currentSortDirection pg1))
                  rows))
  /\ snd (sortTable columnIndex dataType pg) = Ok ().
Proof.
  intros Ht Hnd Hs pg1.
  pose proof (sortTable_rows columnIndex dataType pg rows Ht Hnd) as H.
  cbn zeta in H. fold pg1 in H.
  rewrite (Array_sort_stable_sort _
             (row_order columnIndex dataType (currentSortDirection pg1))) in H.
  - exact H.
  - rewrite Forall_forall in Hs. intros x y Hx Hy.
    apply compare_rows_row_order; by apply Hs.
Qed.

Lemma tie_opposite (columnIndex : Z) (dataType : string) (dir : direction)
    (z x : row) :
  sortable columnIndex dataType z -> sortable columnIndex dataType x ->
  tie (row_order columnIndex dataType (opposite dir)) z x
  <-> tie (row_order columnIndex dataType dir) z x.
Proof.
  intros Hz Hx. unfold tie. rewrite !row_order_opposite.
  rewrite (row_order_antisym _ _ dir z x Hz Hx). lia.
Qed.

Lemma StronglySorted_impl_in {A} (R R' : relation A) (l : list A) :
  (forall x y, x ∈ l -> y ∈ l -> R x y -> R' x y) ->
  StronglySorted R l -> StronglySorted R' l.
Proof.
  intros H Hs. induction Hs as [|x l Hs IH Hx]; [constructor|].
  constructor.
  - apply IH. intros y z Hy Hz. apply H; by right.
  - rewrite Forall_forall in Hx |- *. intros y Hy.
    apply H; [left|by right|by apply Hx].
Qed.

Lemma opposite_involutive (d : direction) : opposite (opposite d) = d.
Proof. by destruct d. Qed.

(** Sorting in one direction, then in the other, then in the first again
    gives what the first sort gave. *)
Lemma stable_sort_there_and_back (columnIndex : Z) (dataType : string)
    (dir : direction) (rows : list row) :
  Forall (sortable columnIndex dataType) rows ->
  let ro := row_order columnIndex dataType in
  stable_sort (ro dir)
    (stable_sort (ro (opposite dir)) (stable_sort (ro dir) rows))
  = stable_sort (ro dir) rows.
Proof.
  intros Hs ro.
  pose proof (row_order_antisym columnIndex dataType) as Hanti.
  pose proof (row_order_trans columnIndex dataType) as Htrans.
  subst ro. cbn beta.
  set (ro := row_order columnIndex dataType) in *.
  set (rows1 := stable_sort (ro dir) rows).
  set (rows2 := stable_sort (ro (opposite dir)) rows1).
  assert (Hs1 : Forall (sortable columnIndex dataType) rows1)
    by (unfold rows1; by rewrite stable_sort_Permutation).
  assert (Hs2 : Forall (sortable columnIndex dataType) rows2)
    by (unfold rows2; by rewrite stable_sort_Permutation).
  apply (sorted_tie_unique (ro dir) (sortable columnIndex dataType)
           (Hanti dir)).
  - by rewrite stable_sort_Permutation.
  - done.
  - by apply (stable_sort_StronglySorted _ _ (Hanti dir) (Htrans dir)).
  - by apply (stable_sort_StronglySorted _ _ (Hanti dir) (Htrans dir)).
  - intros z Hz.
    rewrite (stable_sort_tie _ _ (Htrans dir)) by done.
    rewrite <- (filter_ext_in (tie (ro (opposite dir)) z) (tie (ro dir) z)).
    + unfold rows2.
      rewrite (stable_sort_tie _ _ (Htrans (opposite dir))) by done.
      apply filter_ext_in. intros x Hx. apply tie_opposite; [done|].
      rewrite Forall_forall in Hs1. by apply Hs1.
    + intros x Hx. apply tie_opposite; [done|].
      rewrite Forall_forall in Hs2. by apply Hs2.
Qed.

(** Without ties, sorting in the other direction reverses the list. *)
Lemma stable_sort_opposite_reverse (columnIndex : Z) (dataType : string)
    (dir : direction) (rows : list row) :
  Forall (sortable columnIndex dataType) rows ->
  (forall a b, a ∈ rows -> b ∈ rows -> a <> b ->
               row_order columnIndex dataType dir a b <> 0) ->
  let ro := row_order columnIndex dataType in
  stable_sort (ro (opposite dir)) (stable_sort (ro dir) rows)
  = reverse (stable_sort (ro dir) rows).
Proof.
  intros Hs Hties ro.
  pose proof (row_order_antisym columnIndex dataType) as Hanti.
  pose proof (row_order_trans columnIndex dataType) as Htrans.
  subst ro. cbn beta.
  set (ro := row_order columnIndex dataType) in *.
  set (rows1 := stable_sort (ro dir) rows).
  assert (Hp1 : rows1 ≡ₚ rows) by apply stable_sort_Permutation.
  assert (Hs1 : Forall (sortable columnIndex dataType) rows1)
    by (by rewrite Hp1).
  apply (StronglySorted_unique_strong (fun a b => ro (opposite dir) a b <= 0)).
  - intros x1 x2 H1 H2 H12 H21.
    rewrite stable_sort_Permutation, Hp1 in H1.
    rewrite elem_of_reverse, Hp1 in H2.
    destruct (decide (x1 = x2)) as [|Hne]; [done|]. exfalso.
    apply (Hties x1 x2 H1 H2 Hne).
    rewrite Forall_forall in Hs.
    unfold ro in *. rewrite !row_order_opposite in H12, H21.
    rewrite (Hanti dir x1 x2) in H21 by auto. lia.
  - by apply (stable_sort_StronglySorted _ _ (Hanti (opposite dir))
                (Htrans (opposite dir))).
  - apply (StronglySorted_impl_in (flip (fun a b => ro dir a b <= 0))).
    + intros x y Hx Hy. rewrite elem_of_reverse in Hx, Hy.
      rewrite Forall_forall in Hs1.
      unfold flip, ro in *. rewrite row_order_opposite.
      rewrite (Hanti dir x y) by auto. lia.
    + apply StronglySorted_reverse.
      by apply (stable_sort_StronglySorted _ _ (Hanti dir) (Htrans dir)).
  - by rewrite stable_sort_Permutation, reverse_Permutation.
Qed.

Lemma same_sort_value_tie (columnIndex : Z) (dataType : string)
    (dir : direction) (z x : row) :
  sortable columnIndex dataType z -> sortable columnIndex dataType x ->
  same_sort_value columnIndex dataType z x
  <-> tie (row_order columnIndex dataType dir) z x.
Proof.
  intros Hz Hx.
  assert (H : same_sort_value columnIndex dataType z x
              <-> tie (row_order columnIndex dataType asc) z x).
  { destruct (sortable_comparable _ _ z x Hz Hx) as (vz & vx & Ez & Ex & _).
    unfold same_sort_value, tie. rewrite Ez, Ex.
    rewrite (row_order_values _ _ asc z x vz vx Ez Ex).
    rewrite (row_order_values _ _ asc x z vx vz Ex Ez).
    rewrite !three_way_le. tauto. }
  destruct dir; [exact H|].
  rewrite H. symmetry. by apply (tie_opposite _ _ asc).
Qed.

(** A sort in either direction keeps the rows of one value in the order
    they had. *)
Lemma stable_sort_same_sort_value (columnIndex : Z) (dataType : string)
    (dir : direction) (z : row) (rows : list row) :
  sortable columnIndex dataType z ->
  Forall (sortable columnIndex dataType) rows ->
  filter (same_sort_value columnIndex dataType z)
    (stable_sort (row_order columnIndex dataType dir) rows)
  = filter (same_sort_value columnIndex dataType z) rows.
Proof.
  intros Hz Hs.
  assert (Hs' : Forall (sortable columnIndex dataType)
                  (stable_sort (row_order columnIndex dataType dir) rows))
    by (by rewrite stable_sort_Permutation).
  rewrite Forall_forall in Hs'.
  rewrite (filter_ext_in _ (tie (row_order columnIndex dataType dir) z))
    by (intros x Hx; apply same_sort_value_tie; auto).
  rewrite (stable_sort_tie _ _ (row_order_trans columnIndex dataType dir))
    by done.
  rewrite Forall_forall in Hs.
  symmetry. apply filter_ext_in.
  intros x Hx. apply same_sort_value_tie; auto.
Qed.

(** C4, as the code has it: on a table body whose rows the comparator can
    all order, three calls [sortTable(c, dt)] in a row complete, and the
    third leaves the rows in the order the first left them.  The second
    leaves that order reversed when no two rows have equal values in
    column [c].  Rows with equal values keep their relative order in every
    call: for each row, the rows of its value stand after each call in the
    order they had before the first. *)
Theorem sortTable_three_calls (columnIndex : Z) (dataType : string)
    (pg : page) (rows : list row) :
  repos_table pg = Some (Some rows) -> NoDup (node <$> rows) ->
  Forall (sortable columnIndex dataType) rows ->
  let r1 := sortTable columnIndex dataType pg in
  let r2 := sortTable columnIndex dataType (fst r1) in
  let r3 := sortTable columnIndex dataType (fst r2) in
  snd r1 = Ok () /\ snd r2 = Ok () /\ snd r3 = Ok ()
  /\ table_rows (fst r3) = table_rows (fst r1)
  /\ ((forall a b va vb, a ∈ rows -> b ∈ rows -> a <> b ->
         sort_value columnIndex dataType a = Ok va ->
         sort_value columnIndex dataType b = Ok vb ->
         lt va vb = true \/ lt vb va = true) ->
      table_rows (fst r2) = reverse (table_rows (fst r1)))
  /\ (forall z, z ∈ rows ->
      let of_its_value := filter (same_sort_value columnIndex dataType z) in
      of_its_value (table_rows (fst r1)) = of_its_value rows
      /\ of_its_value (table_rows (fst r2)) = of_its_value rows
      /\ of_its_value (table_rows (fst r3)) = of_its_value rows).
Proof.
  intros Ht Hnd Hs r1 r2 r3.
  set (ro := row_order columnIndex dataType).
  set (d1 := currentSortDirection (fst r1)).
  (* the first call *)
  destruct (sortTable_sortable columnIndex dataType pg rows Ht Hnd Hs)
    as [Ht1 Ho1].
  destruct (sortTable_sort_state columnIndex dataType pg rows Ht)
    as [Hc1 _].
  fold r1 in Ht1, Ho1, Hc1. fold d1 ro in Ht1.
  set (rows1 := stable_sort (ro d1) rows) in *.
  assert (Hp1 : rows1 ≡ₚ rows) by apply stable_sort_Permutation.
  assert (Hnd1 : NoDup (node <$> rows1)) by (by rewrite Hp1).
  assert (Hs1 : Forall (sortable columnIndex dataType) rows1)
    by (by rewrite Hp1).
  (* the second call *)
  destruct (sortTable_sortable columnIndex dataType (fst r1) rows1
              Ht1 Hnd1 Hs1) as [Ht2 Ho2].
  destruct (sortTable_sort_state columnIndex dataType (fst r1) rows1 Ht1)
    as [Hc2 Hd2].
  fold r2 in Ht2, Ho2, Hc2, Hd2.
  rewrite Hc1, Z.eqb_refl in Hd2. fold d1 in Hd2. rewrite Hd2 in Ht2.
  fold ro in Ht2.
  set (rows2 := stable_sort (ro (opposite d1)) rows1) in *.
  assert (Hp2 : rows2 ≡ₚ rows1) by apply stable_sort_Permutation.
  assert (Hnd2 : NoDup (node <$> rows2)) by (by rewrite Hp2).
  assert (Hs2 : Forall (sortable columnIndex dataType) rows2)
    by (by rewrite Hp2).
  (* the third call *)
  destruct (sortTable_sortable columnIndex dataType (fst r2) rows2
              Ht2 Hnd2 Hs2) as [Ht3 Ho3].
  destruct (sortTable_sort_state columnIndex dataType (fst r2) rows2 Ht2)
    as [_ Hd3].
  fold r3 in Ht3, Ho3, Hd3.
  rewrite Hc2, Z.eqb_refl, Hd2, opposite_involutive in Hd3.
  rewrite Hd3 in Ht3. fold ro in Ht3.
  split; [done|]. split; [done|]. split; [done|].
  split; [|split].
  - unfold table_rows. rewrite Ht3, Ht1.
    apply (stable_sort_there_and_back columnIndex dataType d1 rows Hs).
  - intros Hne. unfold table_rows. rewrite Ht2, Ht1.
    apply (stable_sort_opposite_reverse columnIndex dataType d1 rows Hs).
    intros a b Ha Hb Hab.
    rewrite Forall_forall in Hs.
    destruct (sortable_comparable _ _ a b (Hs a Ha) (Hs b Hb))
      as (va & vb & Ea & Eb & Hc).
    rewrite (row_order_values _ _ d1 a b va vb Ea Eb).
    pose proof (three_way_zero va vb) as Hz.
    destruct (Hne a b va vb Ha Hb Hab Ea Eb) as [H|H];
      destruct d1; intros E;
      assert (E0 : three_way va vb = 0) by lia;
      apply Hz in E0 as [E1 E2]; congruence.
  - intros z Hz of_its_value. unfold of_its_value, table_rows.
    rewrite Ht1, Ht2, Ht3.
    assert (Sz : sortable columnIndex dataType z)
      by (rewrite Forall_forall in Hs; by apply Hs).
    assert (E1 : filter (same_sort_value columnIndex dataType z) rows1
                 = filter (same_sort_value columnIndex dataType z) rows)
      by (by apply stable_sort_same_sort_value).
    assert (E2 : filter (same_sort_value columnIndex dataType z) rows2
                 = filter (same_sort_value columnIndex dataType z) rows)
      by (unfold rows2; by rewrite stable_sort_same_sort_value).
    split; [exact E1|]. split; [exact E2|].
    unfold ro. by rewrite stable_sort_same_sort_value.
Qed.

Lemma sortTable_three_calls_witness :
  let rows := [Row 0 [Cell "beta" None]; Row 1 [Cell "alpha" None];
               Row 2 [Cell "gamma" None]] in
  let pg := initial_page (Some (Some rows)) [""] in
  let r1 := sortTable 0 "string" pg in
  let r2 := sortTable 0 "string" (fst r1) in
  let r3 := sortTable 0 "string" (fst r2) in
  table_rows (fst r3) = table_rows (fst r1)
  /\ table_rows (fst r2) = reverse (table_rows (fst r1)).
Proof.
  intros rows pg r1 r2 r3.
  destruct (sortTable_three_calls 0 "string" pg rows eq_refl)
    as (_ & _ & _ & H3 & H2 & _).
  - apply (bool_decide_unpack (NoDup (node <$> rows))). vm_compute. exact I.
  - repeat constructor.
  - split; [exact H3|]. apply H2.
    intros a b va vb Ha Hb Hab Ea Eb.
    unfold rows in Ha, Hb.
    rewrite !elem_of_cons, elem_of_nil in Ha, Hb.
    destruct Ha as [->|[->|[->|[]]]], Hb as [->|[->|[->|[]]]];
      try (by destruct Hab);
      injection Ea as <-; injection Eb as <-; vm_compute; tauto.
Defined.

(** With equal values among the rows: the two rows named "git" keep
    their order through the three calls, around the row "arr". *)
Example three_calls_with_ties :
  let g1 := Row 0 [Cell "git" None] in
  let a := Row 1 [Cell "arr" None] in
  let g2 := Row 2 [Cell " GIT" None] in
  let pg := initial_page (Some (Some [g1; a; g2])) [""] in
  let r1 := sortTable 0 "string" pg in
  let r2 := sortTable 0 "string" (fst r1) in
  let r3 := sortTable 0 "string" (fst r2) in
  table_rows (fst r1) = [a; g1; g2]
  /\ table_rows (fst r2) = [g1; g2; a]
  /\ table_rows (fst r3) = [a; g1; g2].
Proof. vm_compute. repeat split. Qed.

(** C4 as first stated fails on equal keys: two rows whose texts differ
    only in case and margin are not swapped by the second call. *)
Lemma sortTable_twice_keeps_ties :
  let rows := [Row 0 [Cell "git-arr" None]; Row 1 [Cell "Git-Arr " None]] in
  let pg := initial_page (Some (Some rows)) [""] in
  let r1 := sortTable 0 "string" pg in
  let r2 := sortTable 0 "string" (fst r1) in
  snd r1 = Ok () /\ snd r2 = Ok ()
  /\ table_rows (fst r1) = rows
  /\ table_rows (fst r2) = rows
  /\ table_rows (fst r2) <> reverse (table_rows (fst r1)).
Proof. vm_compute. repeat split; discriminate. Qed.

(** ** Further properties of the script *)

(** *** The answers of the age formatter *)

(** X1: the count that [how_long_ago] tells is never below 2, and past the
    years each unit has its largest count: 24 months, 59 days, 47 hours,
    119 minutes, 119 seconds. *)
Theorem how_long_ago_counts (getTime : nat -> Z) (timestamp : value)
    (tick : nat) (t : Q) :
  ToNumber timestamp = Fin t -> (0 <= t)%Q ->
  let answer := fst (how_long_ago getTime timestamp tick) in
  answer = "about now"%string
  \/ exists n : Z,
       (answer = (Z_to_string n ++ " years ago")%string /\ 2 <= n)
       \/ (answer = (Z_to_string n ++ " months ago")%string /\ 2 <= n <= 24)
       \/ (answer = (Z_to_string n ++ " days ago")%string /\ 2 <= n <= 59)
       \/ (answer = (Z_to_string n ++ " hours ago")%string /\ 2 <= n <= 47)
       \/ (answer = (Z_to_string n ++ " minutes ago")%string
           /\ 2 <= n <= 119)
       \/ (answer = (Z_to_string n ++ " seconds ago")%string
           /\ 2 <= n <= 119).
Proof.
  intros Hn Ht answer. unfold answer.
  rewrite (how_long_ago_cascade _ _ _ t Hn Ht). cbn [fst].
  set (s := Qfloor _). clearbody s. unfold age_text.
  destruct (Z.ltb_spec 1 (s / 31536000)) as [H1|H1];
    [right; eexists; left; split; [reflexivity|lia]|].
  destruct (Z.ltb_spec 1 (s / 2592000)) as [H2|H2];
    [right; eexists; right; left; split;
       [reflexivity|Z.div_mod_to_equations; lia]|].
  destruct (Z.ltb_spec 1 (s / 86400)) as [H3|H3];
    [right; eexists; do 2 right; left; split;
       [reflexivity|Z.div_mod_to_equations; lia]|].
  destruct (Z.ltb_spec 1 (s / 3600)) as [H4|H4];
    [right; eexists; do 3 right; left; split;
       [reflexivity|Z.div_mod_to_equations; lia]|].
  destruct (Z.ltb_spec 1 (s / 60)) as [H5|H5];
    [right; eexists; do 4 right; left; split;
       [reflexivity|Z.div_mod_to_equations; lia]|].
  destruct (Z.ltb_spec 1 s) as [H6|H6];
    [right; eexists; do 5 right; split;
       [reflexivity|Z.div_mod_to_equations; lia]|].
  by left.
Qed.

Lemma how_long_ago_counts_witness :
  let answer :=
    fst (how_long_ago (fun _ => 1700000000000) (VStr "1699913600") 0) in
  answer = "about now"%string
  \/ exists n : Z,
       (answer = (Z_to_string n ++ " years ago")%string /\ 2 <= n)
       \/ (answer = (Z_to_string n ++ " months ago")%string /\ 2 <= n <= 24)
       \/ (answer = (Z_to_string n ++ " days ago")%string /\ 2 <= n <= 59)
       \/ (answer = (Z_to_string n ++ " hours ago")%string /\ 2 <= n <= 47)
       \/ (answer = (Z_to_string n ++ " minutes ago")%string
           /\ 2 <= n <= 119)
       \/ (answer = (Z_to_string n ++ " seconds ago")%string
           /\ 2 <= n <= 119).
Proof.
  apply (how_long_ago_counts (fun _ => 1700000000000)
           (VStr "1699913600") 0 (1699913600 # 1));
    [reflexivity | unfold Qle; simpl; lia].
Defined.

(** *** The answers of the age formatter are not numbers *)

Lemma parse_decimal_digit (c : ascii) (r : string) :
  is_Some (digit_of 10 c) ->
  parse_decimal (String c r) = parse_unsigned_decimal (String c r).
Proof.
  intros [k Hk].
  destruct c as [[] [] [] [] [] [] [] []];
    try (vm_compute in Hk; discriminate Hk); reflexivity.
Qed.

Lemma strip_prefix_Infinity_digit (c : ascii) (r : string) :
  is_Some (digit_of 10 c) -> strip_prefix "Infinity" (String c r) = None.
Proof.
  intros [k Hk].
  destruct c as [[] [] [] [] [] [] [] []];
    try (vm_compute in Hk; discriminate Hk); reflexivity.
Qed.

Lemma parse_non_decimal_digit (c0 c1 : ascii) (r : string) :
  is_Some (digit_of 10 c1) \/ c1 = " "%char ->
  parse_non_decimal (String c0 (String c1 r)) = None.
Proof.
  intros H.
  destruct c0 as [[] [] [] [] [] [] [] []]; try reflexivity.
  destruct c1 as [[] [] [] [] [] [] [] []]; try reflexivity;
    exfalso; destruct H as [[k Hk]|Hs];
    solve [vm_compute in Hk; discriminate Hk | discriminate Hs].
Qed.

Lemma span_digits_digit (c : ascii) (k : N) (s : string) :
  digit_of 10 c = Some k ->
  span_digits 10 (String c s)
  = (k :: fst (span_digits 10 s), snd (span_digits 10 s)).
Proof. intros H. cbn. rewrite H. by destruct (span_digits 10 s). Qed.

(** The digits of a decimal numeral, read back up to the space after
    them. *)
Lemma span_digits_numeral (d : Decimal.uint) (r : string) :
  exists ds,
    span_digits 10 (NilEmpty.string_of_uint d ++ String " " r)
    = (ds, String " " r)
    /\ (d <> Decimal.Nil -> ds <> []).
Proof.
  induction d as [|d IH|d IH|d IH|d IH|d IH|d IH|d IH|d IH|d IH|d IH];
    [exists []; by split|..];
    destruct IH as [ds [IH _]];
    cbn [NilEmpty.string_of_uint];
    change (String ?c ?s ++ ?x)%string with (String c (s ++ x));
    erewrite span_digits_digit by reflexivity;
    rewrite IH; eexists; (split; [reflexivity|done]).
Qed.

Lemma numeral_head (d : Decimal.uint) :
  d <> Decimal.Nil ->
  exists c s,
    NilEmpty.string_of_uint d = String c s
    /\ is_Some (digit_of 10 c) /\ is_whitespace c = false
    /\ (s = ""%string
        \/ exists c1 s1, s = String c1 s1 /\ is_Some (digit_of 10 c1)).
Proof.
  intros Hd. destruct d as [|d|d|d|d|d|d|d|d|d|d]; [done|..];
    (eexists _, _; split; [reflexivity|]; split; [by eexists|];
     split; [reflexivity|];
     destruct d; [by left|right; eexists _, _; split;
                           [reflexivity|by eexists]..]).
Qed.

Lemma Z_to_string_pos (p : positive) :
  Z_to_string (Z.pos p) = NilEmpty.string_of_uint (Pos.to_uint p).
Proof.
  unfold Z_to_string. cbn.
  pose proof (Unsigned.to_uint_nonnil p) as H.
  by destruct (Pos.to_uint p).
Qed.

Lemma trim_end_app_keep (a b : string) :
  trim_end b <> ""%string -> trim_end (a ++ b) = (a ++ trim_end b)%string.
Proof.
  intros Hb. induction a as [|c a IH]; [done|].
  change (String c a ++ b)%string with (String c (a ++ b)).
  cbn [trim_end]. rewrite IH.
  change (String c a ++ trim_end b)%string with (String c (a ++ trim_end b)).
  destruct (a ++ trim_end b)%string eqn:E; [|done].
  exfalso. destruct a; [by apply Hb|discriminate E].
Qed.

(** A positive whole number followed by a space and a word is no
    numeric literal. *)
Lemma StringToNumber_count_unit (z : Z) (u : string) :
  0 < z -> trim_end (String " " u) = String " " u ->
  StringToNumber (Z_to_string z ++ String " " u) = NaN.
Proof.
  intros Hz Hu. destruct z as [|p|p]; [lia| |lia].
  rewrite Z_to_string_pos.
  pose proof (Unsigned.to_uint_nonnil p) as Hd.
  set (d := Pos.to_uint p) in *. clearbody d.
  destruct (span_digits_numeral d u) as (ds & Hspan & Hds).
  specialize (Hds Hd).
  destruct (numeral_head d Hd) as (c & s & E & Hc & Hw & Hs).
  rewrite E in *.
  change (String c s ++ String " " u)%string
    with (String c (s ++ String " " u)) in *.
  assert (Htrim : trim (String c (s ++ String " " u))
                  = String c (s ++ String " " u)).
  { unfold trim. cbn [trim_start]. rewrite Hw.
    change (String c (s ++ String " " u))
      with (String c s ++ String " " u)%string.
    rewrite trim_end_app_keep by (by rewrite Hu). by rewrite Hu. }
  unfold StringToNumber. rewrite Htrim.
  assert (Hnd : parse_non_decimal (String c (s ++ String " " u)) = None).
  { destruct Hs as [->|(c1 & s1 & -> & Hc1)].
    - apply parse_non_decimal_digit. by right.
    - apply parse_non_decimal_digit. by left. }
  rewrite Hnd, (parse_decimal_digit c _ Hc).
  unfold parse_unsigned_decimal.
  rewrite (strip_prefix_Infinity_digit c _ Hc), Hspan.
  by destruct ds.
Qed.

Lemma StringToNumber_age_text (s : Z) : StringToNumber (age_text s) = NaN.
Proof.
  unfold age_text.
  repeat match goal with
    | |- context [1 <? ?x] =>
        destruct (Z.ltb_spec 1 x);
        [apply StringToNumber_count_unit; [lia|reflexivity]|]
    end.
  reflexivity.
Qed.

(** What [how_long_ago] answers, by the difference it computes. *)
Lemma how_long_ago_answer (getTime : nat -> Z) (timestamp : value)
    (tick : nat) :
  fst (how_long_ago getTime timestamp tick)
  = if lt timestamp (VNum (of_Z 0)) then "never"%string
    else match num_sub (fst (now getTime tick)) (ToNumber timestamp) with
         | Fin q => age_text (Qfloor q)
         | Inf false => "Infinity years ago"%string
         | _ => "about now"%string
         end.
Proof.
  unfold how_long_ago.
  destruct (lt timestamp (VNum (of_Z 0))); [done|].
  unfold now. cbn [fst].
  destruct (num_sub _ _) as [|[]|q]; try reflexivity.
  change (Math_floor (Fin q)) with (of_Z (Qfloor q)).
  set (s := Qfloor q). clearbody s.
  rewrite !Math_floor_div, !Math_floor_integral, !num_lt_of_Z, !add_str_of_Z.
  unfold age_text.
  change (Z.pos (365 * 24 * 60 * 60)) with 31536000.
  change (Z.pos (30 * 24 * 60 * 60)) with 2592000.
  change (Z.pos (24 * 60 * 60)) with 86400.
  change (Z.pos (60 * 60)) with 3600.
  change (Z.pos 60) with 60.
  repeat (case_match; [reflexivity|]). reflexivity.
Qed.

(** The same lines as in the claim on unparseable input, for use below. *)
Lemma how_long_ago_of_NaN (getTime : nat -> Z) (timestamp : value)
    (tick : nat) :
  ToNumber timestamp = NaN ->
  how_long_ago getTime timestamp tick = ("about now"%string, S tick).
Proof.
  intros Hn. unfold how_long_ago. by rewrite lt_number_r, Hn.
Qed.

Lemma how_long_ago_answer_NaN (getTime : nat -> Z) (timestamp : value)
    (tick : nat) :
  StringToNumber (fst (how_long_ago getTime timestamp tick)) = NaN.
Proof.
  rewrite how_long_ago_answer.
  destruct (lt timestamp _); [reflexivity|].
  destruct (num_sub _ _) as [|[]|q]; try reflexivity.
  apply StringToNumber_age_text.
Qed.

(** X2: the formatter does not read its own answers: given one of them as
    timestamp, for any input and any clock, it answers "about now". *)
Theorem how_long_ago_twice (getTime : nat -> Z) (timestamp : value)
    (tick tick' : nat) :
  how_long_ago getTime
    (VStr (fst (how_long_ago getTime timestamp tick))) tick'
  = ("about now"%string, S tick').
Proof.
  apply how_long_ago_of_NaN. apply how_long_ago_answer_NaN.
Qed.

(** *** The age renderer: text, visibility and a second run *)

Lemma replace_timestamp_fields (getTime : nat -> Z) (e : element)
    (tick : nat) :
  let e' := fst (replace_timestamp getTime e tick) in
  innerHTML e' = fst (how_long_ago getTime (VStr (innerHTML e)) tick)
  /\ style_display e' = "inline"%string.
Proof.
  unfold replace_timestamp.
  destruct (how_long_ago getTime (VStr (innerHTML e)) tick) as [text k].
  destruct (gt _ _); [|done]. unfold now.
  by repeat case_match.
Qed.

Lemma replace_timestamps_length (getTime : nat -> Z)
    (elements : list element) (tick : nat) :
  length (fst (replace_timestamps getTime elements tick)) = length elements.
Proof.
  revert tick. induction elements as [|e elements IH]; intros tick; [done|].
  cbn [replace_timestamps].
  destruct (replace_timestamp getTime e tick) as [e' k].
  specialize (IH k).
  destruct (replace_timestamps getTime elements k). cbn in *. by rewrite IH.
Qed.

(** X3: every age element ends up shown, with the answer of [how_long_ago]
    for the text it had (asked at the clock reads left by the elements in
    front of it), and no element is added or dropped. *)
Theorem replace_timestamps_shows (getTime : nat -> Z)
    (elements : list element) (tick : nat) (i : nat) (e : element) :
  elements !! i = Some e ->
  let result := fst (replace_timestamps getTime elements tick) in
  let asked := snd (replace_timestamps getTime (take i elements) tick) in
  length result = length elements
  /\ exists e',
       result !! i = Some e'
       /\ style_display e' = "inline"%string
       /\ innerHTML e'
          = fst (how_long_ago getTime (VStr (innerHTML e)) asked).
Proof.
  intros Hi result asked.
  split; [apply replace_timestamps_length|].
  eexists. split; [by apply replace_timestamps_lookup|].
  destruct (replace_timestamp_fields getTime e asked) as [H1 H2].
  by split.
Qed.

Lemma replace_timestamps_shows_witness :
  exists e',
    fst (replace_timestamps (fun _ => 1700000000000)
           [Element "age" "1699913600" "none"] 0) !! 0%nat = Some e'
    /\ style_display e' = "inline"%string
    /\ innerHTML e' = "24 hours ago"%string.
Proof.
  destruct (replace_timestamps_shows (fun _ => 1700000000000)
              [Element "age" "1699913600" "none"] 0 0
              (Element "age" "1699913600" "none") eq_refl)
    as (_ & e' & H1 & H2 & H3).
  exists e'. split; [exact H1|]. split; [exact H2|]. exact H3.
Defined.

Lemma replace_timestamp_unparsed (getTime : nat -> Z) (e : element)
    (tick : nat) :
  StringToNumber (innerHTML e) = NaN ->
  replace_timestamp getTime e tick
  = (set_style_display (set_innerHTML e "about now") "inline", S tick).
Proof.
  intros Hn. unfold replace_timestamp.
  rewrite (how_long_ago_of_NaN getTime (VStr (innerHTML e)) tick Hn).
  rewrite gt_number_r. cbn [ToNumber]. by rewrite Hn.
Qed.

Lemma replace_timestamps_unparsed (getTime : nat -> Z)
    (elements : list element) (tick : nat) :
  Forall (fun e => StringToNumber (innerHTML e) = NaN) elements ->
  replace_timestamps getTime elements tick
  = ((fun e => set_style_display (set_innerHTML e "about now") "inline")
       <$> elements,
     (tick + length elements)%nat).
Proof.
  revert tick. induction elements as [|e elements IH]; intros tick H.
  - cbn. f_equal. lia.
  - apply Forall_cons in H as [He H]. cbn [replace_timestamps].
    rewrite (replace_timestamp_unparsed _ _ _ He), (IH (S tick) H).
    cbn. f_equal. lia.
Qed.

(** X4: an age element whose text does not parse as a number is told as
    "about now", is shown, and gets no band class. *)
Theorem replace_timestamps_unparsed_element (getTime : nat -> Z)
    (elements : list element) (tick : nat) (i : nat) (e : element) :
  elements !! i = Some e -> StringToNumber (innerHTML e) = NaN ->
  fst (replace_timestamps getTime elements tick) !! i
  = Some {| className := className e; innerHTML := "about now";
            style_display := "inline" |}.
Proof.
  intros Hi Hn. rewrite (replace_timestamps_lookup _ _ _ _ _ Hi).
  by rewrite (replace_timestamp_unparsed _ _ _ Hn).
Qed.

Lemma replace_timestamps_unparsed_element_witness :
  fst (replace_timestamps (fun _ => 1700000000000)
         [Element "age" "yesterday" "none"] 0) !! 0%nat
  = Some (Element "age" "about now" "inline").
Proof.
  apply (replace_timestamps_unparsed_element (fun _ => 1700000000000)
           [Element "age" "yesterday" "none"] 0 0
           (Element "age" "yesterday" "none")); reflexivity.
Defined.

Lemma replace_timestamps_result (getTime : nat -> Z)
    (elements : list element) (tick : nat) :
  Forall (fun e => StringToNumber (innerHTML e) = NaN
                   /\ style_display e = "inline"%string)
    (fst (replace_timestamps getTime elements tick)).
Proof.
  revert tick. induction elements as [|e elements IH]; intros tick.
  - constructor.
  - cbn [replace_timestamps].
    destruct (replace_timestamp_fields getTime e tick) as [H1 H2].
    destruct (replace_timestamp getTime e tick) as [e' k]. cbn [fst] in *.
    specialize (IH k).
    destruct (replace_timestamps getTime elements k). cbn [fst] in *.
    constructor; [|done]. split; [|done].
    rewrite H1. apply how_long_ago_answer_NaN.
Qed.

(** X5: [replace_timestamps] is not to be run twice: a second run over the
    elements that a first run left turns every text into "about now",
    whatever it was, and changes no class and no display state; it reads
    the clock once for each element. *)
Theorem replace_timestamps_twice (getTime : nat -> Z)
    (elements : list element) (tick : nat) :
  let first := replace_timestamps getTime elements tick in
  let second := replace_timestamps getTime (fst first) (snd first) in
  fst second = (fun e => set_innerHTML e "about now") <$> fst first
  /\ snd second = (snd first + length elements)%nat.
Proof.
  intros first second. unfold second.
  pose proof (replace_timestamps_result getTime elements tick) as H.
  fold first in H.
  rewrite replace_timestamps_unparsed
    by (eapply Forall_impl; [exact H|]; by intros e [? _]).
  cbn [fst snd]. split.
  - apply Forall_fmap_ext_1. eapply Forall_impl; [exact H|].
    intros [c h d] [_ Hd]. cbn in Hd. by subst d.
  - unfold first. by rewrite replace_timestamps_length.
Qed.

Lemma age_text_about_now (s : Z) : s <= 1 -> age_text s = "about now"%string.
Proof.
  intros Hs. unfold age_text.
  repeat match goal with
    | |- context [1 <? ?x] =>
        destruct (Z.ltb_spec 1 x);
        [exfalso; Z.div_mod_to_equations; lia|]
    end.
  reflexivity.
Qed.

(** X6: a timestamp that is not behind the clock, as with a commit dated in
    the future, is told as "about now" and marked as most recent. *)
Theorem replace_timestamps_future (getTime : nat -> Z)
    (elements : list element) (tick : nat) (i : nat) (e : element) (t : Q) :
  elements !! i = Some e ->
  ToNumber (VStr (innerHTML e)) = Fin t -> (0 < t)%Q ->
  let asked := snd (replace_timestamps getTime (take i elements) tick) in
  (clock_seconds getTime asked <= t)%Q ->
  (clock_seconds getTime (S asked) <= t)%Q ->
  exists e',
    fst (replace_timestamps getTime elements tick) !! i = Some e'
    /\ innerHTML e' = "about now"%string
    /\ className e' = (className e ++ " age-band0")%string.
Proof.
  intros Hi Hn Ht asked H1 H2.
  eexists. split; [by apply replace_timestamps_lookup|]. fold asked.
  destruct (replace_timestamp_fields getTime e asked) as [Htext _].
  split.
  - rewrite Htext.
    rewrite (how_long_ago_cascade _ _ _ t Hn (Qlt_le_weak _ _ Ht)).
    apply age_text_about_now.
    assert (Hle : (clock_seconds getTime asked - t <= inject_Z 0)%Q).
    { apply (Qplus_le_l _ _ t). ring_simplify. exact H1. }
    apply Qfloor_resp_le in Hle. rewrite Qfloor_Z in Hle. lia.
  - rewrite (replace_timestamp_className _ _ _ t Hn).
    destruct (Qlt_le_dec 0 t) as [_|Hle];
      [|exfalso; exact (Qlt_not_le _ _ Ht Hle)].
    unfold age_band.
    destruct (Qlt_le_dec _ (inject_Z 7200)) as [_|Hge]; [done|].
    exfalso.
    assert (Hle : (clock_seconds getTime (S asked) - t <= inject_Z 0)%Q).
    { apply (Qplus_le_l _ _ t). ring_simplify. exact H2. }
    pose proof (Qle_trans _ _ _ Hge Hle) as Hc.
    revert Hc. unfold Qle. cbn. lia.
Qed.

Lemma replace_timestamps_future_witness :
  exists e',
    fst (replace_timestamps (fun _ => 1700000000000)
           [Element "age" "1700003600" "none"] 0) !! 0%nat = Some e'
    /\ innerHTML e' = "about now"%string
    /\ className e' = "age age-band0"%string.
Proof.
  apply (replace_timestamps_future (fun _ => 1700000000000)
           [Element "age" "1700003600" "none"] 0 0
           (Element "age" "1700003600" "none") (1700003600 # 1));
    [reflexivity | reflexivity | reflexivity
    | unfold Qle; cbn; lia | unfold Qle; cbn; lia].
Defined.

(** *** The visibility toggle: what it leaves alone *)

(** X7: [toggle] fails exactly when no element carries the id. *)
Theorem toggle_throws_iff (id : string) (document : gmap string element) :
  toggle id document = TypeError <-> document !! id = None.
Proof.
  unfold toggle. destruct (document !! id) as [e|]; [|done].
  split; [|done]. by repeat case_match.
Qed.

(** X8: a completed [toggle] touches nothing but the display state of the
    element it was given: the same ids are present, every other element is
    as it was, and the element itself keeps its class and its content. *)
Theorem toggle_frame (id : string) (document document' : gmap string element) :
  toggle id document = Ok document' ->
  dom document' = dom document
  /\ (forall id', id' <> id -> document' !! id' = document !! id')
  /\ exists e e',
       document !! id = Some e /\ document' !! id = Some e'
       /\ className e' = className e /\ innerHTML e' = innerHTML e.
Proof.
  unfold toggle. destruct (document !! id) as [e|] eqn:He; [|done].
  assert (Hdom : forall e1, dom (<[id:=e1]> document) = dom document).
  { intros e1. rewrite dom_insert_L.
    apply (elem_of_dom_2 document) in He.
    apply subseteq_union_1_L. by apply singleton_subseteq_l. }
  intros H. repeat case_match; injection H as <-.
  - split; [apply Hdom|]. split; [intros; by apply lookup_insert_ne|].
    exists e, (set_style_display e "none").
    by rewrite lookup_insert_eq.
  - split; [apply Hdom|]. split; [intros; by apply lookup_insert_ne|].
    exists e, (set_style_display e "").
    by rewrite lookup_insert_eq.
  - split; [done|]. split; [done|]. by exists e, e.
Qed.

Lemma toggle_frame_witness :
  let document : gmap string element :=
    {[ "log"%string := Element "box" "text" "" ;
       "diff"%string := Element "box" "more" "none" ]} in
  exists document',
    toggle "log" document = Ok document'
    /\ document' !! "diff"%string = document !! "diff"%string.
Proof.
  intros document.
  exists (<["log"%string := Element "box" "text" "none"]> document).
  assert (H : toggle "log" document
              = Ok (<["log"%string := Element "box" "text" "none"]> document))
    by (vm_compute; reflexivity).
  split; [exact H|].
  destruct (toggle_frame "log" document _ H) as (_ & Hother & _).
  apply Hother. discriminate.
Defined.

(** *** The table sorter: failures *)

(** [sortTable] on a page with a table body, with the direction it
    chooses written out. *)
Lemma sortTable_body (columnIndex : Z) (dataType : string) (pg : page)
    (rows : list row) :
  repos_table pg = Some (Some rows) ->
  let d := if currentSortColumn pg =? columnIndex
           then opposite (currentSortDirection pg) else asc in
  sortTable columnIndex dataType pg
  = match Array_sort (compare_rows columnIndex dataType d) rows with
    | Ok sorted =>
        ({| repos_table := Some (Some (fold_left appendChild sorted rows));
            sort_indicators :=
              updateSortIndicators columnIndex d (sort_indicators pg);
            currentSortColumn := columnIndex;
            currentSortDirection := d |}, Ok ())
    | TypeError => (set_sort_state pg columnIndex d, TypeError)
    end.
Proof.
  intros Ht. unfold sortTable. rewrite Ht.
  destruct (Z.eqb_spec (currentSortColumn pg) columnIndex) as [<-|Hne];
    cbn; by destruct (Array_sort _ rows).
Qed.

Lemma compare_rows_throws_l (columnIndex : Z) (dataType : string)
    (dir : direction) (a b : row) :
  sort_value columnIndex dataType a = TypeError ->
  compare_rows columnIndex dataType dir a b = TypeError.
Proof.
  unfold sort_value, compare_rows.
  destruct (cells_at a columnIndex) as [ca|],
           (cells_at b columnIndex) as [cb|],
           (String.eqb dataType "number"); cbn; try done;
    destruct (age_span ca); cbn; try done; by destruct (age_span cb).
Qed.

Lemma compare_rows_throws_r (columnIndex : Z) (dataType : string)
    (dir : direction) (a b : row) :
  sort_value columnIndex dataType b = TypeError ->
  compare_rows columnIndex dataType dir a b = TypeError.
Proof.
  unfold sort_value, compare_rows.
  destruct (cells_at a columnIndex) as [ca|],
           (cells_at b columnIndex) as [cb|],
           (String.eqb dataType "number"); cbn; try done;
    try (destruct (age_span ca); cbn; try done);
    by destruct (age_span cb).
Qed.

(** An element that cannot be compared makes a sort of two elements or
    more throw: every element is compared at least once. *)
Lemma Array_sort_throws {A} (cmp : A -> A -> outcome Z) (p : A) (l : list A) :
  (forall y, cmp p y = TypeError /\ cmp y p = TypeError) ->
  p ∈ l -> (2 <= length l)%nat -> Array_sort cmp l = TypeError.
Proof.
  intros Hp. induction l as [|x l IH]; intros Hin Hlen; [by inv Hin|].
  cbn [Array_sort].
  destruct (Array_sort cmp l) as [s|] eqn:Hs; cbn; [|done].
  pose proof (Array_sort_Permutation cmp l s Hs) as Hperm.
  apply elem_of_cons in Hin as [<-|Hin].
  - destruct s as [|y s].
    + apply Permutation_nil_l in Hperm. subst l. cbn in Hlen. lia.
    + cbn. by rewrite (proj1 (Hp y)).
  - destruct l as [|y [|z l]]; [by inv Hin| |].
    + apply list_elem_of_singleton in Hin as <-.
      cbn in Hs. injection Hs as <-. cbn. by rewrite (proj2 (Hp x)).
    + assert (E : Ok s = @TypeError (list A))
        by (apply IH; [done|cbn; lia]).
      discriminate E.
Qed.

Lemma sort_insert_throws_inv {A} (cmp : A -> A -> outcome Z) (x : A)
    (l : list A) :
  sort_insert cmp x l = TypeError -> exists y, y ∈ l /\ cmp x y = TypeError.
Proof.
  induction l as [|y l IH]; [done|]. cbn.
  destruct (cmp x y) as [c|] eqn:E; cbn; [|exists y; split; [left|done]].
  destruct (c <=? 0); [done|].
  destruct (sort_insert cmp x l); cbn; [done|]. intros _.
  destruct (IH eq_refl) as (z & Hz & Ez). exists z. split; [by right|done].
Qed.

(** A sort throws only if a comparison of two of the elements throws. *)
Lemma Array_sort_throws_inv {A} (cmp : A -> A -> outcome Z) (l : list A) :
  Array_sort cmp l = TypeError ->
  exists x y, x ∈ l /\ y ∈ l /\ cmp x y = TypeError.
Proof.
  induction l as [|x l IH]; [done|]. cbn.
  destruct (Array_sort cmp l) as [s|] eqn:Hs; cbn.
  - intros (y & Hy & E)%sort_insert_throws_inv.
    rewrite (Array_sort_Permutation cmp l s Hs) in Hy.
    exists x, y. split; [left|]. split; [by right|done].
  - intros _. destruct (IH eq_refl) as (a & b & Ha & Hb & E).
    exists a, b. split; [by right|]. split; [by right|done].
Qed.

Lemma compare_rows_throws_inv (columnIndex : Z) (dataType : string)
    (dir : direction) (a b : row) :
  compare_rows columnIndex dataType dir a b = TypeError ->
  sort_value columnIndex dataType a = TypeError
  \/ sort_value columnIndex dataType b = TypeError.
Proof.
  destruct (sort_value columnIndex dataType a) as [va|] eqn:Ea; [|by left].
  destruct (sort_value columnIndex dataType b) as [vb|] eqn:Eb; [|by right].
  by rewrite (compare_rows_values _ _ dir a b va vb Ea Eb).
Qed.

(** X9: [sortTable] ends in a TypeError in exactly three situations: the page
    has no element [repos-table], the table has no body, or the body has
    two rows or more and one of them lacks what the comparator reads (the
    cell of the column, or in number mode the age element in it). *)
Theorem sortTable_throws_iff (columnIndex : Z) (dataType : string)
    (pg : page) :
  snd (sortTable columnIndex dataType pg) = TypeError
  <-> repos_table pg = None
      \/ repos_table pg = Some None
      \/ exists rows r,
           repos_table pg = Some (Some rows) /\ (2 <= length rows)%nat
           /\ r ∈ rows /\ sort_value columnIndex dataType r = TypeError.
Proof.
  destruct (repos_table pg) as [[rows|]|] eqn:Ht.
  - rewrite (sortTable_body _ _ _ rows Ht). cbn zeta.
    set (d := if _ =? _ then _ else _). clearbody d.
    split.
    + intros H. do 2 right. exists rows.
      assert (Hlen : (2 <= length rows)%nat).
      { destruct rows as [|x [|y rows']]; [by cbn in H|by cbn in H|].
        cbn. lia. }
      destruct (Array_sort _ rows) as [sorted|] eqn:Hs; [done|].
      apply Array_sort_throws_inv in Hs as (a & b & Ha & Hb & E).
      apply compare_rows_throws_inv in E as [E|E];
        [exists a|exists b]; by repeat split.
    + intros [H|[H|(rows' & r & [= <-] & Hlen & Hr & Hv)]]; [done..|].
      rewrite (Array_sort_throws _ r rows); [done| |done..].
      intros y. split;
        [by apply compare_rows_throws_l|by apply compare_rows_throws_r].
  - unfold sortTable. rewrite Ht. split; [auto|done].
  - unfold sortTable. rewrite Ht. split; [auto|done].
Qed.

(** X10: a failed [sortTable] moves no row and rewrites no indicator; when the
    table or its body is missing it leaves the whole page, sort state
    included, as it was.  A throwing comparator, though, comes after the
    direction has been chosen: the sort state has changed. *)
Theorem sortTable_failure (columnIndex : Z) (dataType : string) (pg : page) :
  snd (sortTable columnIndex dataType pg) = TypeError ->
  let pg' := fst (sortTable columnIndex dataType pg) in
  repos_table pg' = repos_table pg
  /\ sort_indicators pg' = sort_indicators pg
  /\ (repos_table pg = None \/ repos_table pg = Some None -> pg' = pg)
  /\ (forall rows, repos_table pg = Some (Some rows) ->
      currentSortColumn pg' = columnIndex
      /\ currentSortDirection pg'
         = if currentSortColumn pg =? columnIndex
           then opposite (currentSortDirection pg) else asc).
Proof.
  destruct (repos_table pg) as [[rows|]|] eqn:Ht.
  - rewrite (sortTable_body _ _ _ rows Ht). cbn zeta.
    destruct (Array_sort _ rows) as [sorted|] eqn:Hs; [done|].
    intros _. cbn. repeat split; try done. by intros [|].
  - unfold sortTable. rewrite Ht. by repeat split.
  - unfold sortTable. rewrite Ht. by repeat split.
Qed.

Lemma sortTable_failure_witness :
  let pg := initial_page
              (Some (Some [Row 0 [Cell "b" None]; Row 1 []])) [""] in
  let pg' := fst (sortTable 0 "string" pg) in
  repos_table pg' = repos_table pg
  /\ sort_indicators pg' = sort_indicators pg
  /\ currentSortColumn pg' = 0 /\ currentSortDirection pg' = asc.
Proof.
  intros pg pg'.
  pose proof (sortTable_failure 0 "string" pg eq_refl) as H.
  cbn zeta in H. destruct H as (H1 & H2 & _ & H3).
  destruct (H3 _ eq_refl) as [H4 H5].
  split; [exact H1|]. split; [exact H2|]. split; [exact H4|exact H5].
Defined.

(** X11: nothing is compared in a body of one row or none: the call completes
    for every column index and data type, and the rows stay. *)
Theorem sortTable_short_body (columnIndex : Z) (dataType : string)
    (pg : page) (rows : list row) :
  repos_table pg = Some (Some rows) -> (length rows <= 1)%nat ->
  snd (sortTable columnIndex dataType pg) = Ok ()
  /\ repos_table (fst (sortTable columnIndex dataType pg))
     = Some (Some rows).
Proof.
  intros Ht Hlen. rewrite (sortTable_body _ _ _ rows Ht). cbn zeta.
  destruct rows as [|x [|y rows]]; [done| |cbn in Hlen; lia].
  cbn. unfold appendChild. cbn.
  by rewrite decide_False by (by intros H; apply H).
Qed.

Lemma sortTable_short_body_witness :
  snd (sortTable 7 "number" (initial_page (Some (Some [Row 0 []])) []))
  = Ok ()
  /\ repos_table
       (fst (sortTable 7 "number" (initial_page (Some (Some [Row 0 []])) [])))
     = Some (Some [Row 0 []]).
Proof.
  apply (sortTable_short_body 7 "number"
           (initial_page (Some (Some [Row 0 []])) []) [Row 0 []] eq_refl).
  cbn. lia.
Defined.

(** *** The table sorter: indicators *)

(** X12: after a completed [sortTable] the indicator of the sorted column, if
    there is one, shows the arrow of the direction now in force and every
    other indicator is empty; there are as many indicators as before. *)
Theorem sortTable_indicators (columnIndex : Z) (dataType : string)
    (pg : page) :
  snd (sortTable columnIndex dataType pg) = Ok () ->
  let pg' := fst (sortTable columnIndex dataType pg) in
  length (sort_indicators pg') = length (sort_indicators pg)
  /\ forall i : nat,
       (i < length (sort_indicators pg))%nat ->
       sort_indicators pg' !! i
       = Some (if decide (Z.of_nat i = columnIndex)
               then arrow (currentSortDirection pg') else ""%string).
Proof.
  destruct (repos_table pg) as [[rows|]|] eqn:Ht;
    [|unfold sortTable; by rewrite Ht..].
  rewrite (sortTable_body _ _ _ rows Ht). cbn zeta.
  destruct (Array_sort _ rows) as [sorted|]; [|done]. intros _. cbn.
  unfold updateSortIndicators. split; [apply length_imap|].
  intros i Hi. rewrite list_lookup_imap.
  destruct (lookup_lt_is_Some_2 _ _ Hi) as [s ->]. cbn.
  destruct (Z.eqb_spec (Z.of_nat i) columnIndex);
    [by rewrite decide_True|by rewrite decide_False].
Qed.

Lemma sortTable_indicators_witness :
  let pg := initial_page (Some (Some [Row 0 [Cell "b" None]]))
              ["x"; "y"]%string in
  sort_indicators (fst (sortTable 1 "string" pg)) !! 1%nat
  = Some " ▲"%string.
Proof.
  intros pg.
  destruct (sortTable_indicators 1 "string" pg eq_refl) as [_ H].
  apply (H 1%nat). cbn. lia.
Defined.

(** *** The table sorter: the comparator and the order it leaves *)

Lemma sort_value_mode (columnIndex : Z) (dataType : string) (r : row)
    (v : value) :
  sort_value columnIndex dataType r = Ok v ->
  if String.eqb dataType "number"
  then exists n, v = VNum n
  else exists s, v = VStr s.
Proof.
  unfold sort_value.
  destruct (cells_at r columnIndex) as [c|]; [|done].
  destruct (String.eqb dataType "number").
  - destruct (age_span c); [|done]. intros [= <-]. by eexists.
  - intros [= <-]. by eexists.
Qed.

(** X13: the comparator is a consistent one, as [sort] asks of it: on two rows
    it can read it returns -1, 0 or 1 and the opposite with the arguments
    swapped, and on rows whose values are not NaN it is transitive. *)
Theorem compare_rows_consistent (columnIndex : Z) (dataType : string)
    (dir : direction) (a b : row) (va vb : value) :
  sort_value columnIndex dataType a = Ok va ->
  sort_value columnIndex dataType b = Ok vb ->
  (exists z,
     compare_rows columnIndex dataType dir a b = Ok z
     /\ compare_rows columnIndex dataType dir b a = Ok (- z)
     /\ -1 <= z <= 1)
  /\ (forall c z1 z2,
        sortable columnIndex dataType a ->
        sortable columnIndex dataType b ->
        sortable columnIndex dataType c ->
        compare_rows columnIndex dataType dir a b = Ok z1 ->
        compare_rows columnIndex dataType dir b c = Ok z2 ->
        z1 <= 0 -> z2 <= 0 ->
        exists z3,
          compare_rows columnIndex dataType dir a c = Ok z3 /\ z3 <= 0).
Proof.
  intros Ea Eb. split.
  - rewrite (compare_rows_values _ _ dir a b va vb Ea Eb).
    rewrite (compare_rows_values _ _ dir b a vb va Eb Ea).
    assert (H : three_way vb va = - three_way va vb /\ -1 <= three_way va vb <= 1).
    { pose proof (sort_value_mode _ _ _ _ Ea) as Ma.
      pose proof (sort_value_mode _ _ _ _ Eb) as Mb.
      unfold three_way, gt.
      destruct (String.eqb dataType "number").
      - destruct Ma as [x ->], Mb as [y ->]. cbn.
        pose proof (num_lt_asym x y). pose proof (num_lt_asym y x).
        destruct (num_lt x y), (num_lt y x); split; (lia || done || auto);
          exfalso; auto using Bool.diff_true_false.
      - destruct Ma as [s ->], Mb as [t ->]. cbn.
        pose proof (String_ltb_asym s t). pose proof (String_ltb_asym t s).
        destruct (String.ltb s t), (String.ltb t s); split;
          (lia || done || auto); exfalso; auto using Bool.diff_true_false. }
    destruct H as [H1 H2]. eexists. split; [reflexivity|].
    split; [|destruct dir; lia]. f_equal. destruct dir; lia.
  - intros c z1 z2 Sa Sb Sc E1 E2 H1 H2.
    rewrite (compare_rows_row_order _ _ dir a c Sa Sc).
    eexists. split; [reflexivity|].
    apply (row_order_trans _ _ dir a b c Sa Sb Sc).
    + unfold row_order. by rewrite E1.
    + unfold row_order. by rewrite E2.
Qed.

Lemma compare_rows_consistent_witness :
  exists z,
    compare_rows 0 "string" asc
      (Row 0 [Cell "beta" None]) (Row 1 [Cell "Alpha" None]) = Ok z
    /\ compare_rows 0 "string" asc
         (Row 1 [Cell "Alpha" None]) (Row 0 [Cell "beta" None]) = Ok (- z)
    /\ -1 <= z <= 1.
Proof.
  apply (compare_rows_consistent 0 "string" asc
           (Row 0 [Cell "beta" None]) (Row 1 [Cell "Alpha" None])
           (VStr "beta") (VStr "alpha")); reflexivity.
Defined.

Lemma StronglySorted_lookup {A} (R : relation A) (l : list A) (i j : nat)
    (a b : A) :
  StronglySorted R l -> (i < j)%nat ->
  l !! i = Some a -> l !! j = Some b -> R a b.
Proof.
  intros Hs. revert i j. induction Hs as [|x l Hs IH Hx]; intros i j Hij Hi Hj.
  - done.
  - destruct j as [|j]; [lia|]. cbn in Hj. destruct i as [|i].
    + injection Hi as <-. rewrite Forall_forall in Hx.
      apply Hx. by eapply list_elem_of_lookup_2.
    + cbn in Hi. apply (IH i j); [lia|done..].
Qed.

(** X14: after a completed sort of rows that can all be ordered, the rows
    stand in the order of their values: going down the table the value
    never decreases in ascending direction and never increases in
    descending direction. *)
Theorem sortTable_sorted (columnIndex : Z) (dataType : string) (pg : page)
    (rows : list row) (i j : nat) (a b : row) (va vb : value) :
  repos_table pg = Some (Some rows) -> NoDup (node <$> rows) ->
  Forall (sortable columnIndex dataType) rows ->
  let pg' := fst (sortTable columnIndex dataType pg) in
  (i < j)%nat ->
  table_rows pg' !! i = Some a -> table_rows pg' !! j = Some b ->
  sort_value columnIndex dataType a = Ok va ->
  sort_value columnIndex dataType b = Ok vb ->
  match currentSortDirection pg' with
  | asc => lt vb va = false
  | desc => lt va vb = false
  end.
Proof.
  intros Ht Hnd Hs pg' Hij Hi Hj Ea Eb.
  destruct (sortTable_sortable columnIndex dataType pg rows Ht Hnd Hs)
    as [Ht' _].
  fold pg' in Ht'. unfold table_rows in Hi, Hj. rewrite Ht' in Hi, Hj.
  set (d := currentSortDirection pg') in *. clearbody d.
  pose proof (stable_sort_StronglySorted _ _
                (row_order_antisym columnIndex dataType d)
                (row_order_trans columnIndex dataType d) rows Hs) as Hsorted.
  pose proof (StronglySorted_lookup _ _ i j a b Hsorted Hij Hi Hj) as Hab.
  cbn beta in Hab.
  rewrite (row_order_values _ _ d a b va vb Ea Eb) in Hab.
  assert (Hc : comparable va vb).
  { assert (Ha : sortable columnIndex dataType a).
    { rewrite Forall_forall in Hs. apply Hs.
      rewrite <- (stable_sort_Permutation
                    (row_order columnIndex dataType d) rows).
      by eapply list_elem_of_lookup_2. }
    assert (Hb : sortable columnIndex dataType b).
    { rewrite Forall_forall in Hs. apply Hs.
      rewrite <- (stable_sort_Permutation
                    (row_order columnIndex dataType d) rows).
      by eapply list_elem_of_lookup_2. }
    destruct (sortable_comparable _ _ a b Ha Hb) as (va' & vb' & E1 & E2 & H).
    congruence. }
  destruct d.
  - by apply three_way_le.
  - apply three_way_le. rewrite (three_way_antisym va vb Hc). lia.
Qed.

Lemma sortTable_sorted_witness :
  let beta := Row 0 [Cell "beta" None] in
  let alpha := Row 1 [Cell "Alpha" None] in
  let pg := initial_page (Some (Some [beta; alpha])) [""] in
  table_rows (fst (sortTable 0 "string" pg)) = [alpha; beta]
  /\ lt (VStr "beta") (VStr "alpha") = false.
Proof.
  intros beta alpha pg. split; [reflexivity|].
  apply (sortTable_sorted 0 "string" pg [beta; alpha] 0 1 alpha beta
           (VStr "alpha") (VStr "beta") eq_refl);
    try reflexivity.
  - apply (bool_decide_unpack (NoDup (node <$> [beta; alpha]))).
    vm_compute. exact I.
  - repeat constructor.
  - lia.
Defined.

(** X15: a row whose age element carries no [data-timestamp] attribute has the
    value NaN, and the comparator ranks it equal to every row it can read,
    in either position and direction. *)
Theorem compare_rows_missing_timestamp (columnIndex : Z) (dir : direction)
    (a b : row) (ca : cell) (vb : value) :
  cells_at a columnIndex = Some ca -> age_span ca = Some None ->
  sort_value columnIndex "number" b = Ok vb ->
  sort_value columnIndex "number" a = Ok (VNum NaN)
  /\ compare_rows columnIndex "number" dir a b = Ok 0
  /\ compare_rows columnIndex "number" dir b a = Ok 0.
Proof.
  intros Hc Hspan Eb.
  assert (Ea : sort_value columnIndex "number" a = Ok (VNum NaN))
    by (unfold sort_value; by rewrite Hc, Hspan).
  split; [exact Ea|].
  destruct (sort_value_mode _ _ _ _ Eb) as [y ->].
  rewrite (compare_rows_values _ _ dir a b _ _ Ea Eb).
  rewrite (compare_rows_values _ _ dir b a _ _ Eb Ea).
  unfold three_way, gt, lt. cbn.
  replace (num_lt y NaN) with false by (by destruct y as [|[]|]).
  by destruct dir.
Qed.

Lemma compare_rows_missing_timestamp_witness :
  compare_rows 0 "number" asc
    (Row 0 [Cell "" (Some None)]) (Row 1 [Cell "" (Some (Some "100"))])
  = Ok 0.
Proof.
  apply (compare_rows_missing_timestamp 0 asc
           (Row 0 [Cell "" (Some None)])
           (Row 1 [Cell "" (Some (Some "100"))])
           (Cell "" (Some None)) (VNum (parseFloat (VStr "100"))));
    reflexivity.
Defined.

(** *** The table sorter: repeated calls *)

Lemma sortTable_keeps_body (columnIndex : Z) (dataType : string) (pg : page)
    (rows : list row) :
  repos_table pg = Some (Some rows) ->
  exists rows',
    repos_table (fst (sortTable columnIndex dataType pg)) = Some (Some rows').
Proof.
  intros Ht. rewrite (sortTable_body _ _ _ rows Ht). cbn zeta.
  destruct (Array_sort _ rows); cbn; by eexists.
Qed.

Lemma sortTable_times_state (n : nat) (columnIndex : Z) (dataType : string)
    (pg : page) (rows : list row) :
  repos_table pg = Some (Some rows) -> currentSortColumn pg <> columnIndex ->
  let pg' := sortTable_times (S n) columnIndex dataType pg in
  (exists rows', repos_table pg' = Some (Some rows'))
  /\ currentSortColumn pg' = columnIndex
  /\ currentSortDirection pg' = if Nat.even n then asc else desc.
Proof.
  intros Ht Hc. induction n as [|n (( rows' & Ht') & Hcol & Hdir)].
  - cbn. split; [by eapply sortTable_keeps_body|].
    destruct (sortTable_sort_state columnIndex dataType pg rows Ht)
      as [H1 H2].
    split; [done|]. rewrite H2.
    by destruct (Z.eqb_spec (currentSortColumn pg) columnIndex).
  - cbn zeta. change (sortTable_times (S (S n)) columnIndex dataType pg)
      with (fst (sortTable columnIndex dataType
                   (sortTable_times (S n) columnIndex dataType pg))).
    set (pgn := sortTable_times (S n) columnIndex dataType pg) in *.
    split; [by eapply sortTable_keeps_body|].
    destruct (sortTable_sort_state columnIndex dataType pgn rows' Ht')
      as [H1 H2].
    split; [done|]. rewrite H2, Hcol, Z.eqb_refl, Hdir.
    rewrite Nat.even_succ, <- Nat.negb_even. by destruct (Nat.even n).
Qed.

(** X16: clicking one column header again and again alternates the direction:
    starting on a column other than the remembered one, the [n]-th call in
    a row sorts ascending for odd [n] and descending for even [n], whether
    or not the sorts themselves complete. *)
Theorem sortTable_alternates (n : nat) (columnIndex : Z) (dataType : string)
    (pg : page) (rows : list row) :
  repos_table pg = Some (Some rows) -> currentSortColumn pg <> columnIndex ->
  (1 <= n)%nat ->
  let pg' := sortTable_times n columnIndex dataType pg in
  currentSortColumn pg' = columnIndex
  /\ currentSortDirection pg' = if Nat.odd n then asc else desc.
Proof.
  intros Ht Hc Hn. destruct n as [|n]; [lia|].
  destruct (sortTable_times_state n columnIndex dataType pg rows Ht Hc)
    as (_ & H1 & H2).
  split; [exact H1|]. rewrite H2, Nat.odd_succ. done.
Qed.

Lemma sortTable_alternates_witness :
  let pg := initial_page (Some (Some [Row 0 [Cell "b" None];
                                      Row 1 [Cell "a" None]])) [""] in
  currentSortColumn (sortTable_times 4 0 "string" pg) = 0
  /\ currentSortDirection (sortTable_times 4 0 "string" pg) = desc.
Proof.
  intros pg.
  apply (sortTable_alternates 4 0 "string" pg _ eq_refl);
    [discriminate | lia].
Defined.
